(** * mw.py: medium wave style audio player

    A shallow embedding of [src/mw.py] and the properties of its
    filter graph, render step, playback control loop and playlist driver.

    Conventions of the embedding:
    - Python [str] values are Rocq [string]s (byte strings); [str.lower] is
      the ASCII lowering, and [list.sort] on names is the byte-wise
      lexicographic order [String.le].
    - A path built with [os.path.join dir name] is kept structured, so that
      [os.path.dirname] is its left inverse for every path flavour.
    - Effects (the [STOP_ALL] global, the temporary directories on disk and
      everything the program prints or launches) are threaded through a
      small state and exception monad; what the environment answers (a
      temporary directory or none, the exit status of a child process or
      its failure to start, the bytes of the keys pressed, failing
      removals) is an explicit argument. *)

From Stdlib Require Import Ascii String NArith ZArith QArith.
From stdpp Require Import base tactics list strings sorting gmap.

Local Open Scope string_scope.

(** ** Strings as the source uses them *)

Module Py.

(** [c.lower()] on one ASCII character. *)
Definition lower_ascii (c : ascii) : ascii :=
  let n := N_of_ascii c in
  if ((65 <=? n) && (n <=? 90))%N then ascii_of_N (n + 32) else c.

(** [s.lower()] *)
Fixpoint lower (s : string) : string :=
  match s with
  | EmptyString => EmptyString
  | String c s' => String (lower_ascii c) (lower s')
  end.

(** [s.endswith(suf)] for one suffix: the last [len(suf)] characters of [s]
    are compared with [suf]. *)
Definition endswith1 (s suf : string) : bool :=
  (String.length suf <=? String.length s)%nat
  && String.eqb
       (substring (String.length s - String.length suf) (String.length suf) s)
       suf.

(** [s.endswith(t)] for a tuple of suffixes. *)
Definition endswith (s : string) (sufs : list string) : bool :=
  existsb (endswith1 s) sufs.

(** [", ".join(xs)] *)
Fixpoint join (sep : string) (xs : list string) : string :=
  match xs with
  | [] => ""
  | [x] => x
  | x :: xs' => x ++ sep ++ join sep xs'
  end.

(** [l.sort()] on a list of names.  The order on names is total and
    antisymmetric, so the sorted list is determined by the elements alone
    ([sort_unique] below) and any sorting algorithm models the builtin. *)
Definition sort (l : list string) : list string := merge_sort String.le l.

End Py.

(** ** Paths *)

Record filepath := FilePath { parent : string; basename : string }.

Definition os_path_join (d f : string) : filepath := FilePath d f.
Definition os_path_dirname (p : filepath) : string := parent p.

Global Instance filepath_eq_dec : EqDecision filepath.
Proof. solve_decision. Defined.

(** ** Constants of the module *)

Definition SUPPORTED_EXTENSIONS : list string :=
  [".mp3"; ".wav"; ".flac"; ".ogg"; ".m4a"; ".aac"; ".wma"; ".opus"].

(** ** The track list of [main]

    [files = [f for f in os.listdir(folder)
              if os.path.isfile(os.path.join(folder, f))
              and f.lower().endswith(SUPPORTED_EXTENSIONS)]; files.sort()] *)

Definition is_track (isfile : filepath → bool) (folder f : string) : bool :=
  isfile (os_path_join folder f)
  && Py.endswith (Py.lower f) SUPPORTED_EXTENSIONS.

Definition track_list (isfile : filepath → bool) (folder : string)
    (listing : list string) : list string :=
  Py.sort (List.filter (is_track isfile folder) listing).

(** ** The filter graph

    [build_filter_complex_for_music_plus_effects] returns the text handed
    to ffmpeg's [-filter_complex]; adjacent literals of the source are
    joined as Python joins them. *)

Definition build_filter_complex_for_music_plus_effects : string :=
  let main_chain :=
    "[0:a]"
    ++ "aformat=channel_layouts=mono,"
    ++ "highpass=f=220,"
    ++ "lowpass=f=4500,"
    ++ "equalizer=f=350:t=q:w=1:g=3,"
    ++ "equalizer=f=1000:t=q:w=1:g=1.5,"
    ++ "equalizer=f=2600:t=q:w=2:g=-2,"
    ++ "acrusher=bits=9:mode=log:aa=1,"
    ++ "volume=0dB"
    ++ "[a0];" in
  let whistle :=
    "sine=frequency=1800:sample_rate=44100[wsrc];"
    ++ "[wsrc]"
    ++ "tremolo=f=0.1:d=1,"
    ++ "vibrato=f=0.4:d=0.05,"
    ++ "aformat=channel_layouts=mono,"
    ++ "volume=0.05"
    ++ "[w1];" in
  let crackle :=
    "anoisesrc=color=white:amplitude=1.0:sample_rate=44100[nk];"
    ++ "[nk]"
    ++ "highpass=f=6000,"
    ++ "lowpass=f=12000,"
    ++ "acrusher=bits=2:mode=log:aa=0.0,"
    ++ "tremolo=f=40.0:d=1,"
    ++ "aformat=channel_layouts=mono,"
    ++ "volume=0.12"
    ++ "[k1];" in
  let effects_mix := "[w1][k1]amix=inputs=2:normalize=0[w];" in
  let mix_chain := "[a0][w]amix=inputs=2:duration=first:normalize=0[out]" in
  main_chain ++ whistle ++ crackle ++ effects_mix ++ mix_chain.

(** *** Reading a filter graph description

    The textual syntax ffmpeg accepts, without quoting or escapes (the
    source uses neither): chains are separated by [;], the filters of a
    chain by [,]; a filter is [[in]..name=key=value:key=value..[out]..]. *)

Module FilterGraph.

Record filter := Filter {
  in_labels : list string;
  fname : string;
  fargs : list (string * string);
  out_labels : list string
}.

Definition chain := list filter.
Definition graph := list chain.

(** [split_on c s]: the pieces of [s] between occurrences of [c]. *)
Fixpoint split_go (c : ascii) (s : string) (cur : string) : list string :=
  match s with
  | EmptyString => [String.rev cur]
  | String d s' =>
      if Ascii.eqb d c then String.rev cur :: split_go c s' ""
      else split_go c s' (String d cur)
  end.
Definition split_on (c : ascii) (s : string) : list string := split_go c s "".

(** [break_at c s]: the text before the first [c] and the text from it on. *)
Fixpoint break_at (c : ascii) (s : string) : string * string :=
  match s with
  | EmptyString => ("", "")
  | String d s' =>
      if Ascii.eqb d c then ("", s)
      else let '(a, b) := break_at c s' in (String d a, b)
  end.

(** Leading [[label]] groups of [s] and what follows them; [None] when a
    bracket is left open. *)
Fixpoint labels_go (s : string) (cur : option string) (acc : list string)
    : option (list string * string) :=
  match cur, s with
  | None, String "[" s' => labels_go s' (Some "") acc
  | None, _ => Some (acc, s)
  | Some _, EmptyString => None
  | Some l, String "]" s' => labels_go s' None (acc ++ [String.rev l])
  | Some l, String d s' => labels_go s' (Some (String d l)) acc
  end.
Definition take_labels (s : string) : option (list string * string) :=
  labels_go s None [].

(** [key=value], or a positional value under the empty key. *)
Definition parse_arg (s : string) : string * string :=
  match break_at "=" s with
  | (v, EmptyString) => ("", v)
  | (k, String _ v) => (k, v)
  end.

Definition parse_body (s : string) : string * list (string * string) :=
  match break_at "=" s with
  | (n, EmptyString) => (n, [])
  | (n, String _ a) => (n, parse_arg <$> split_on ":" a)
  end.

Definition parse_filter (s : string) : option filter :=
  '(ins, s1) ← take_labels s;
  let '(body, s2) := break_at "[" s1 in
  '(outs, s3) ← take_labels s2;
  if String.eqb s3 "" && negb (String.eqb body "") then
    let '(n, args) := parse_body body in Some (Filter ins n args outs)
  else None.

Definition parse_chain (s : string) : option chain :=
  mapM parse_filter (split_on "," s).

Definition parse (s : string) : option graph :=
  mapM parse_chain (split_on ";" s).

(** *** Stages and pins

    A stage is one filter of one chain.  Its pins are the labels written
    in the text and the unnamed links between neighbours of a chain. *)

Inductive pin :=
  | Named (l : string)
  | Link (chain_no pos : nat).

Global Instance pin_eq_dec : EqDecision pin.
Proof. solve_decision. Defined.

Record stage := Stage {
  consumes : list pin;
  kind : string;
  params : list (string * string);
  produces : list pin
}.

Fixpoint stages_of_chain (i j : nat) (c : chain) : list stage :=
  match c with
  | [] => []
  | f :: c' =>
      Stage ((if j is 0 then [] else [Link i (j - 1)]) ++ (Named <$> in_labels f))
            (fname f) (fargs f)
            ((Named <$> out_labels f) ++ (if c' is [] then [] else [Link i j]))
      :: stages_of_chain i (S j) c'
  end.

Definition stages (g : graph) : list stage :=
  concat (imap (λ i c, stages_of_chain i 0 c) g).

(** The stream of the first input file, as [-i] names it. *)
Definition primary_input : pin := Named "0:a".

(** Every pin a stage consumes is the primary input or is produced by a
    stage before it. *)
Definition pins_defined_before (ss : list stage) : Prop :=
  ∀ k s p, ss !! k = Some s → p ∈ consumes s →
    p = primary_input ∨ ∃ k' s', k' < k ∧ ss !! k' = Some s' ∧ p ∈ produces s'.

(** [feeds ss a b]: some pin produced by stage [a] is consumed by stage [b]. *)
Definition feeds (ss : list stage) (a b : nat) : Prop :=
  ∃ sa sb p, ss !! a = Some sa ∧ ss !! b = Some sb
             ∧ p ∈ produces sa ∧ p ∈ consumes sb.

Definition acyclic (ss : list stage) : Prop :=
  ∀ a, ¬ tc (feeds ss) a a.

Definition all_produced (ss : list stage) : list pin := ss ≫= produces.
Definition all_consumed (ss : list stage) : list pin := ss ≫= consumes.

(** Pins that leave the graph: produced, and consumed by no stage. *)
Definition declared_outputs (ss : list stage) : list pin :=
  List.filter (λ p, bool_decide (p ∉ all_consumed ss)) (all_produced ss).

(** The executable form of [pins_defined_before]. *)
Fixpoint defined_before_b (seen : list pin) (ss : list stage) : bool :=
  match ss with
  | [] => true
  | s :: ss' =>
      forallb (λ p, bool_decide (p = primary_input ∨ p ∈ seen)) (consumes s)
      && defined_before_b (seen ++ produces s) ss'
  end.

(** The value given to the option [k] of a filter, if any. *)
Definition param (f : filter) (k : string) : option string :=
  snd <$> List.find (λ kv, String.eqb (fst kv) k) (fargs f).

(** A decimal numeral of the text: sign, digits, and digits after a point. *)
Definition digit (c : ascii) : option Z :=
  let n := Z.of_N (N_of_ascii c) in
  if ((48 <=? n) && (n <=? 57))%Z then Some (n - 48)%Z else None.

Fixpoint digits (s : string) (acc : Z) : option Z :=
  match s with
  | EmptyString => Some acc
  | String c s' =>
      match digit c with
      | Some d => digits s' (10 * acc + d)%Z
      | None => None
      end
  end.

Definition decimal (s : string) : option Q :=
  let '(neg, body) :=
    match s with String "-" s' => (true, s') | _ => (false, s) end in
  let '(ip, rest) := break_at "." body in
  let fp := match rest with String _ f => f | EmptyString => "" end in
  if String.eqb ip "" then None
  else match digits ip 0, digits fp 0 with
       | Some i, Some f =>
           let scale := (10 ^ Z.of_nat (String.length fp))%Z in
           let v := Qmake (i * scale + f) (Z.to_pos scale) in
           Some (if neg then Qopp v else v)
       | _, _ => None
       end.

(** The numeric value given to the option [k] of a filter. *)
Definition value (f : filter) (k : string) : option Q :=
  param f k ≫= decimal.

(** The chain whose first filter reads the pin [p], and the chain whose
    last filter writes it. *)
Definition path_from (g : graph) (p : string) : option chain :=
  List.find (λ c, match c with
                  | f :: _ => bool_decide (p ∈ in_labels f)
                  | [] => false
                  end) g.

Definition path_into (g : graph) (p : string) : option chain :=
  List.find (λ c, match last c with
                  | Some f => bool_decide (p ∈ out_labels f)
                  | None => false
                  end) g.

(** The labels a chain ends on, and the names of its filters. *)
Definition end_labels (c : chain) : list string :=
  match last c with
  | Some f => out_labels f
  | None => []
  end.

Definition names (c : chain) : list string := fname <$> c.

End FilterGraph.

(** What ffmpeg reads in the text the builder returns. *)
Definition the_graph : FilterGraph.graph :=
  let Filter := FilterGraph.Filter in
  [[Filter ["0:a"] "aformat" [("channel_layouts", "mono")] [];
    Filter [] "highpass" [("f", "220")] [];
    Filter [] "lowpass" [("f", "4500")] [];
    Filter [] "equalizer" [("f", "350"); ("t", "q"); ("w", "1"); ("g", "3")] [];
    Filter [] "equalizer" [("f", "1000"); ("t", "q"); ("w", "1"); ("g", "1.5")] [];
    Filter [] "equalizer" [("f", "2600"); ("t", "q"); ("w", "2"); ("g", "-2")] [];
    Filter [] "acrusher" [("bits", "9"); ("mode", "log"); ("aa", "1")] [];
    Filter [] "volume" [("", "0dB")] ["a0"]];
   [Filter [] "sine" [("frequency", "1800"); ("sample_rate", "44100")] ["wsrc"]];
   [Filter ["wsrc"] "tremolo" [("f", "0.1"); ("d", "1")] [];
    Filter [] "vibrato" [("f", "0.4"); ("d", "0.05")] [];
    Filter [] "aformat" [("channel_layouts", "mono")] [];
    Filter [] "volume" [("", "0.05")] ["w1"]];
   [Filter [] "anoisesrc"
      [("color", "white"); ("amplitude", "1.0"); ("sample_rate", "44100")] ["nk"]];
   [Filter ["nk"] "highpass" [("f", "6000")] [];
    Filter [] "lowpass" [("f", "12000")] [];
    Filter [] "acrusher" [("bits", "2"); ("mode", "log"); ("aa", "0.0")] [];
    Filter [] "tremolo" [("f", "40.0"); ("d", "1")] [];
    Filter [] "aformat" [("channel_layouts", "mono")] [];
    Filter [] "volume" [("", "0.12")] ["k1"]];
   [Filter ["w1"; "k1"] "amix" [("inputs", "2"); ("normalize", "0")] ["w"]];
   [Filter ["a0"; "w"] "amix"
      [("inputs", "2"); ("duration", "first"); ("normalize", "0")] ["out"]]].

(** The anti-aliasing settings of the bit crushers of a graph, in the
    order of the text. *)
Definition crusher_aa (g : FilterGraph.graph) : list Q :=
  concat g ≫= λ f,
    if String.eqb (FilterGraph.fname f) "acrusher"
    then option_list (FilterGraph.value f "aa")
    else [].

(** The reading of the main content path that does not hold: its bit
    crusher has the least anti-aliasing setting of the graph. *)
Definition main_crusher_aa_is_minimal : Prop :=
  ∀ g c crush aa,
    FilterGraph.parse build_filter_complex_for_music_plus_effects = Some g →
    FilterGraph.path_from g "0:a" = Some c →
    crush ∈ c →
    FilterGraph.fname crush = "acrusher" →
    FilterGraph.value crush "aa" = Some aa →
    Forall (λ aa', (aa <= aa')%Q) (crusher_aa g).

(** ** The world the program runs in *)

(** Exceptions that travel through the program.  [KeyboardInterrupt] and
    [SystemExit] are not subclasses of [Exception]. *)
Inductive exn :=
  | CalledProcessError (returncode : Z)
  | OSError
  | KeyboardInterrupt
  | SystemExit (status : Z).

Definition is_Exception (e : exn) : bool :=
  match e with
  | CalledProcessError _ | OSError => true
  | KeyboardInterrupt | SystemExit _ => false
  end.

(** One word of a command line. *)
Inductive arg :=
  | Arg (s : string)
  | ArgPath (p : filepath).

(** What the program does to the outside, in the order it does it. *)
Inductive event :=
  | Print (s : string)
  | AskDirectory (title : string)         (* the folder dialog is shown *)
  | PrintExc (s : string) (e : exn)       (* [print(f"{s}{e}")] *)
  | Mkdtemp (prefix d : string)
  | Rmtree (d : string)
  | Run (cmd : list arg)                  (* [subprocess.run] *)
  | Popen (cmd : list arg)
  | Terminate (cmd : list arg)            (* [proc.terminate()] *)
  | Getch (ch : ascii)
  | Sleep.

Record world := World {
  STOP_ALL : bool;                        (* the module global *)
  tmp_dirs : gset string;                 (* directories that exist *)
  trace : list event
}.

Inductive result (A : Type) :=
  | Return (a : A)
  | Raise (e : exn).
Global Arguments Return {A} a.
Global Arguments Raise {A} e.

Definition M (A : Type) : Type := world → result A * world.

Definition ret {A} (a : A) : M A := λ w, (Return a, w).
Definition raise {A} (e : exn) : M A := λ w, (Raise e, w).
Definition bind {A B} (m : M A) (k : A → M B) : M B :=
  λ w, match m w with
       | (Return a, w') => k a w'
       | (Raise e, w') => (Raise e, w')
       end.

Declare Scope prog_scope.
Notation "x ← y ; z" := (bind y (λ x, z))
  (at level 20, y at level 100, z at level 200, only parsing) : prog_scope.
Notation "x ;; z" := (bind x (λ _, z))
  (at level 100, z at level 200, only parsing, right associativity)
  : prog_scope.
Local Open Scope prog_scope.

(** [try: body  except <the exceptions h accepts>: handler] *)
Definition try_except {A} (body : M A) (h : exn → option (M A)) : M A :=
  λ w, match body w with
       | (Return a, w') => (Return a, w')
       | (Raise e, w') =>
           match h e with
           | Some handler => handler w'
           | None => (Raise e, w')
           end
       end.

(** [try: body  finally: fin] *)
Definition try_finally {A} (body : M A) (fin : M unit) : M A :=
  λ w, let '(r, w') := body w in
       match fin w' with
       | (Return _, w'') => (r, w'')
       | (Raise e, w'') => (Raise e, w'')
       end.

(** The world after the events [evs] have been added to its trace. *)
Definition log (evs : list event) (w : world) : world :=
  World (STOP_ALL w) (tmp_dirs w) (trace w ++ evs).

Definition emit (ev : event) : M unit := λ w, (Return tt, log [ev] w).

Definition print (s : string) : M unit := emit (Print s).

Definition get_STOP_ALL : M bool := λ w, (Return (STOP_ALL w), w).
Definition set_STOP_ALL (b : bool) : M unit :=
  λ w, (Return tt, World b (tmp_dirs w) (trace w)).

(** The line feed of ["\n"]. *)
Definition nl : string := String "010"%char "".

(** *** What the environment answers *)

(** The fate of a child process the program waits for with
    [subprocess.run]: it exits with a status, it cannot be started, or the
    wait is interrupted from the keyboard. *)
Inductive run_result :=
  | Exited (returncode : Z)
  | LaunchFailed
  | Interrupted.

(** What one turn of the polling loop meets while ffplay is still running. *)
Inductive tick :=
  | Idle                                  (* [kbhit()] is false *)
  | Key (ch : ascii)                      (* [kbhit()], then [getch()] = ch *)
  | CtrlC.                                (* KeyboardInterrupt *)

(** A key as the listener presses it, and the bytes [msvcrt.getch]
    delivers for it, one per call: an ordinary key is one byte; a
    function or arrow key is two, a prefix (0x00 or 0xE0) and then the
    code of the key. *)
Inductive keypress :=
  | Ordinary (ch : ascii)
  | Special (prefix code : ascii).



Global Instance keypress_eq_dec : EqDecision keypress.
Proof. solve_decision. Defined.


(** What becomes of a render: either no temporary directory can be made
    ([tempfile.mkdtemp] raises [OSError]) and ffmpeg is not reached, or the
    directory is made and ffmpeg has the fate [r].  A [run_result] stands
    for the second case wherever a [render_result] is expected. *)
Inductive render_result :=
  | Started (r : run_result)
  | NoTempDir.
Coercion Started : run_result >-> render_result.

(** What becomes of a playback under key polling: either ffplay cannot
    be started ([subprocess.Popen] raises [OSError]), or it runs and the
    loop meets the given turns until ffplay exits by itself.  A list of
    turns stands for the second case wherever a [polling] is expected. *)
Inductive polling :=
  | Polled (ticks : list tick)
  | NotStarted.
#[warning="-uniform-inheritance"]
Coercion Polled : list >-> polling.

(** The answers that concern one track. *)
Record track_env := TrackEnv {
  tmp_name : string;       (* the name [mkdtemp] draws first *)
  render : render_result;  (* [mkdtemp], then ffmpeg *)
  keys : polling;          (* [Popen], then the polling loop *)
  play : run_result;       (* ffplay under a blocking [subprocess.run] *)
  rmtree_ok : bool         (* whether removing the directory succeeds *)
}.

(** The machine: platform, files, and the answers for each track. *)
Record host := Host {
  os_name : string;
  has_msvcrt : bool;
  script_dir : string;
  isfile : filepath → bool;
  isdir : string → bool;
  which : string → option filepath;
  askdirectory : string;
  listdir : string → list string;
  answers : string → track_env
}.

(** [tempfile.mkdtemp(prefix=..)]: creates a directory that did not exist,
    or raises [OSError] when none can be created.  Names are drawn until
    one is free; the draws after the first are abstracted by [fresh]. *)
Definition mkdtemp_pick (cand : string) (existing : gset string) : string :=
  if decide (cand ∈ existing) then fresh existing else cand.

Definition mkdtemp (prefix cand : string) (r : render_result) : M string :=
  match r with
  | NoTempDir => raise OSError
  | Started _ =>
      λ w, let d := mkdtemp_pick cand (tmp_dirs w) in
           (Return d,
            log [Mkdtemp prefix d]
              (World (STOP_ALL w) ({[d]} ∪ tmp_dirs w) (trace w)))
  end.

(** The fate of ffmpeg in a render that got its directory. *)
Definition ffmpeg_fate (r : render_result) : run_result :=
  match r with
  | Started fate => fate
  | NoTempDir => LaunchFailed             (* not reached *)
  end.

(** [os.path.isdir] on a directory made by [mkdtemp]. *)
Definition os_path_isdir (d : string) : M bool :=
  λ w, (Return (bool_decide (d ∈ tmp_dirs w)), w).

(** [shutil.rmtree(d)] raises [OSError] when the removal fails, and the
    directory stays. *)
Definition shutil_rmtree (ok : bool) (d : string) : M unit :=
  λ w, let w' := log [Rmtree d] w in
       if ok && bool_decide (d ∈ tmp_dirs w)
       then (Return tt, World (STOP_ALL w') (tmp_dirs w' ∖ {[d]}) (trace w'))
       else (Raise OSError, w').

(** [subprocess.run(cmd, check=check)] *)
Definition subprocess_run (cmd : list arg) (check : bool) (r : run_result)
    : M Z :=
  emit (Run cmd);;
  match r with
  | Exited c =>
      if check && negb (c =? 0)%Z then raise (CalledProcessError c) else ret c
  | LaunchFailed => raise OSError
  | Interrupted => raise KeyboardInterrupt
  end.

(** [proc = subprocess.Popen(cmd)]: the turns the polling of [proc] will
    meet, or [OSError] when the program cannot be started. *)
Definition subprocess_Popen (cmd : list arg) (p : polling) : M (list tick) :=
  emit (Popen cmd);;
  match p with
  | Polled ticks => ret ticks
  | NotStarted => raise OSError
  end.

(** ** The functions of mw.py *)

Definition find_ffplay (h : host) : M filepath :=
  let exe_name := if String.eqb (os_name h) "nt" then "ffplay.exe" else "ffplay" in
  let local_path := os_path_join (script_dir h) exe_name in
  if isfile h local_path then ret local_path
  else match which h exe_name with
       | Some ffplay_path => ret ffplay_path
       | None =>
           print "Error: ffplay not found.";;
           print "Install an ffmpeg build that includes ffplay";;
           print "and either put ffplay next to mw.py or add it to PATH.";;
           raise (SystemExit 1)
       end.

Definition find_ffmpeg (h : host) : M filepath :=
  let exe_name := if String.eqb (os_name h) "nt" then "ffmpeg.exe" else "ffmpeg" in
  let local_path := os_path_join (script_dir h) exe_name in
  if isfile h local_path then ret local_path
  else match which h exe_name with
       | Some ffmpeg_path => ret ffmpeg_path
       | None =>
           print "Error: ffmpeg not found.";;
           print "Install an ffmpeg build and either put ffmpeg next to mw.py";;
           print "or add it to PATH.";;
           raise (SystemExit 1)
       end.

Definition choose_folder (h : host) : M string :=
  emit (AskDirectory "Choose folder with audio files");;
  ret (askdirectory h).

(** The cleanup both [mix_to_temp_wav] and [main] perform:
    [try: if os.path.isdir(d): shutil.rmtree(d)  except OSError: pass] *)
Definition remove_quietly (ok : bool) (tmp_dir : string) : M unit :=
  try_except
    (there ← os_path_isdir tmp_dir;
     if there then shutil_rmtree ok tmp_dir else ret tt)
    (λ e, match e with OSError => Some (ret tt) | _ => None end).

Definition ffmpeg_cmd (ffmpeg_path music_file : filepath)
    (filter_complex : string) (tmp_path : filepath) : list arg :=
  [ArgPath ffmpeg_path; Arg "-y"; Arg "-i"; ArgPath music_file;
   Arg "-filter_complex"; Arg filter_complex; Arg "-map"; Arg "[out]";
   Arg "-ac"; Arg "1"; Arg "-ar"; Arg "44100"; ArgPath tmp_path].

Definition mix_to_temp_wav (a : track_env) (ffmpeg_path music_file : filepath)
    : M filepath :=
  tmp_dir ← mkdtemp "mw_mix_" (tmp_name a) (render a);
  let tmp_path := os_path_join tmp_dir "out.wav" in
  let filter_complex := build_filter_complex_for_music_plus_effects in
  let cmd := ffmpeg_cmd ffmpeg_path music_file filter_complex tmp_path in
  print ("ffmpeg filter_complex: " ++ filter_complex);;
  try_except
    (subprocess_run cmd true (ffmpeg_fate (render a));; ret tt)
    (λ e, match e with
          | CalledProcessError _ => Some (
              emit (PrintExc "Error while mixing with ffmpeg: " e);;
              remove_quietly (rmtree_ok a) tmp_dir;;
              raise e)
          | _ => None
          end);;
  ret tmp_path.

Definition ffplay_cmd (ffplay_path wav_path : filepath) : list arg :=
  [ArgPath ffplay_path; Arg "-nodisp"; Arg "-autoexit"; ArgPath wav_path].

Definition is_key (ch : ascii) (accepted : list ascii) : bool :=
  bool_decide (ch ∈ accepted).

(** [while proc.poll() is None: ...]: one turn per [tick]; when the ticks
    are used up ffplay has exited and the loop is left.  The result is
    the value of a [return] inside the loop, if one was reached. *)
Fixpoint poll_loop (cmd : list arg) (ticks : list tick) : M (option string) :=
  match ticks with
  | [] => ret None
  | CtrlC :: _ => raise KeyboardInterrupt
  | Idle :: rest => emit Sleep;; poll_loop cmd rest
  | Key ch :: rest =>
      emit (Getch ch);;
      if is_key ch ["n"; "N"]%char then
        emit (Terminate cmd);; ret (Some "next")
      else if is_key ch ["q"; "Q"]%char then
        emit (Terminate cmd);; set_STOP_ALL true;; ret (Some "quit")
      else
        emit Sleep;; poll_loop cmd rest
  end.

Definition play_wav_with_ffplay (h : host) (a : track_env)
    (ffplay_path wav_path : filepath) : M string :=
  let cmd := ffplay_cmd ffplay_path wav_path in
  if String.eqb (os_name h) "nt" then
    if negb (has_msvcrt h) then
      subprocess_run cmd false (play a);; ret "done"
    else
      proc ← subprocess_Popen cmd (keys a);
      print "Keys: n = next track, q = quit";;
      r ← try_except (poll_loop cmd proc)
            (λ e, match e with
                  | KeyboardInterrupt => Some (
                      emit (Terminate cmd);; set_STOP_ALL true;;
                      ret (Some "quit"))
                  | _ => None
                  end);
      match r with
      | Some v => ret v
      | None => ret "done"
      end
  else
    subprocess_run cmd false (play a);; ret "done".

(** How one turn of the [for] loop of [main] ends. *)
Inductive flow := Continue | Break.

(** The body of [for filename in files]. *)
Definition track_cycle (h : host) (ffplay_path ffmpeg_path : filepath)
    (folder filename : string) : M flow :=
  stop ← get_STOP_ALL;
  if stop then ret Break
  else
    let full_path := os_path_join folder filename in
    print (nl ++ "Playing: " ++ filename);;
    mixed ← try_except
              (tmp_wav ← mix_to_temp_wav (answers h filename) ffmpeg_path full_path;
               ret (Some tmp_wav))
              (λ e, if is_Exception e then Some (
                      print "Skipping this file due to an error while creating the mixed file.";;
                      ret None)
                    else None);
    match mixed with
    | None => ret Continue
    | Some tmp_wav =>
        let tmp_dir := os_path_dirname tmp_wav in
        result ← try_finally
                   (play_wav_with_ffplay h (answers h filename) ffplay_path tmp_wav)
                   (remove_quietly (rmtree_ok (answers h filename)) tmp_dir);
        if String.eqb result "quit" then ret Break else ret Continue
    end.

Fixpoint for_files (h : host) (ffplay_path ffmpeg_path : filepath)
    (folder : string) (files : list string) : M unit :=
  match files with
  | [] => ret tt
  | filename :: rest =>
      c ← track_cycle h ffplay_path ffmpeg_path folder filename;
      match c with
      | Break => ret tt
      | Continue => for_files h ffplay_path ffmpeg_path folder rest
      end
  end.

Fixpoint print_each (prefix : string) (xs : list string) : M unit :=
  match xs with
  | [] => ret tt
  | x :: xs' => print (prefix ++ x);; print_each prefix xs'
  end.

Definition done_message : string :=
  nl ++ "Done. All files have been processed and played, unless errors occurred.".

Definition main (h : host) : M unit :=
  print "mw.py - medium wave style player with whistle and high frequency crackle";;
  print "---------------------------------------------------------------------";;
  ffplay_path ← find_ffplay h;
  ffmpeg_path ← find_ffmpeg h;
  folder ← choose_folder h;
  if String.eqb folder "" then
    print "No folder selected. Exiting."
  else if negb (isdir h folder) then
    print "Selected path is not a folder."
  else
    let files := track_list (isfile h) folder (listdir h folder) in
    if bool_decide (files = []) then
      print "No supported audio files found in the selected folder.";;
      print "Supported extensions:";;
      print (Py.join ", " SUPPORTED_EXTENSIONS)
    else
      print ("Found audio files in '" ++ folder ++ "':");;
      print_each "  - " files;;
      print (nl ++ "Starting playback with medium wave style effect ..." ++ nl);;
      print ("On Windows you can use: n = next track, q = quit, Ctrl+C = stop script." ++ nl);;
      for_files h ffplay_path ffmpeg_path folder files;;
      print done_message.

(** [if __name__ == "__main__"]: the exit status of the process. *)
Definition script (h : host) (w : world) : Z * world :=
  match main h w with
  | (Return _, w') => (0%Z, w')
  | (Raise KeyboardInterrupt, w') =>
      (0%Z, log [Print (nl ++ "Interrupted by user.")] w')
  | (Raise (SystemExit c), w') => (c, w')
  | (Raise _, w') => (1%Z, w')
  end.

(** The state at process start. *)
Definition boot (existing : gset string) : world := World false existing [].

(** ** Vocabulary of the specification *)

(** The outcomes of a playback, and the strings that stand for them. *)
Inductive PlaybackOutcome := Completed | SkipRequested | QuitRequested.

Definition outcome_name (o : PlaybackOutcome) : string :=
  match o with
  | Completed => "done"
  | SkipRequested => "next"
  | QuitRequested => "quit"
  end.

(** Two bytes that are the same character when case is ignored: the same
    byte, or the capital (65..90) and the small form (97..122) of one of
    the letters A..Z. *)
Definition same_letter (c d : ascii) : Prop :=
  let m := N_of_ascii c in
  let n := N_of_ascii d in
  (m = n ∨ (65 ≤ m ≤ 90 ∧ n = m + 32) ∨ (65 ≤ n ≤ 90 ∧ m = n + 32))%N.

(** Two names that are equal when case is ignored. *)
Fixpoint same_nocase (s t : string) : Prop :=
  match s, t with
  | EmptyString, EmptyString => True
  | String c s', String d t' => same_letter c d ∧ same_nocase s' t'
  | _, _ => False
  end.

(** The suffix relation the spec speaks of: [f], compared without regard
    to case, ends in [ext]. *)
Definition ends_with_nocase (f ext : string) : Prop :=
  ∃ pre suf, f = pre ++ suf ∧ same_nocase suf ext.

(** The folder dialog of [choose_folder]. *)
Definition dialog : event := AskDirectory "Choose folder with audio files".

(** The events [main] produces before it looks at the folder. *)
Definition banner : list event :=
  [Print "mw.py - medium wave style player with whistle and high frequency crackle";
   Print "---------------------------------------------------------------------"].

(** The machine has both programs and the user picked a directory. *)
Definition ready (h : host) (ffplay_path ffmpeg_path : filepath) : Prop :=
  (∀ w, find_ffplay h w = (Return ffplay_path, w))
  ∧ (∀ w, find_ffmpeg h w = (Return ffmpeg_path, w))
  ∧ askdirectory h ≠ ""
  ∧ isdir h (askdirectory h) = true.

(** ** Vocabulary for the statements about runs *)

(** The world with the directory [d] created, or removed. *)
Definition made (d : string) (w : world) : world :=
  World (STOP_ALL w) ({[d]} ∪ tmp_dirs w) (trace w).
Definition removed (d : string) (w : world) : world :=
  World (STOP_ALL w) (tmp_dirs w ∖ {[d]}) (trace w).

(** What a render attempt does before ffmpeg has answered. *)
Definition render_events (ffmpeg_path music_file : filepath) (d : string)
    : list event :=
  [Mkdtemp "mw_mix_" d;
   Print ("ffmpeg filter_complex: " ++ build_filter_complex_for_music_plus_effects);
   Run (ffmpeg_cmd ffmpeg_path music_file
          build_filter_complex_for_music_plus_effects
          (os_path_join d "out.wav"))].

(** A failure of the render step, as [main] understands it: an exception
    of class [Exception]. *)
Definition RenderFailure (e : exn) : Prop := is_Exception e = true.

(** The events that start a player. *)
Definition is_ffplay_cmd (cmd : list arg) : bool :=
  match cmd with
  | [ArgPath _; Arg a; Arg b; ArgPath _] =>
      String.eqb a "-nodisp" && String.eqb b "-autoexit"
  | _ => false
  end.
Definition launches_player (ev : event) : bool :=
  match ev with
  | Popen cmd | Run cmd => is_ffplay_cmd cmd
  | _ => false
  end.

Definition is_terminate (ev : event) : bool :=
  match ev with Terminate _ => true | _ => false end.

(** Key polling is available. *)
Definition interactive (h : host) : Prop :=
  os_name h = "nt" ∧ has_msvcrt h = true.

(** A turn of the polling loop that leaves the loop running. *)
Definition inert (t : tick) : Prop :=
  match t with
  | Idle => True
  | Key ch => ch ∉ ["n"; "N"; "q"; "Q"]%char
  | CtrlC => False
  end.

(** What such turns leave in the trace. *)
Definition tick_events (ticks : list tick) : list event :=
  ticks ≫= λ t, match t with
                | Idle => [Sleep]
                | Key ch => [Getch ch; Sleep]
                | CtrlC => []
                end.



(** How interactive playback starts. *)
Definition player_started (ffplay_path wav_path : filepath) : list event :=
  [Popen (ffplay_cmd ffplay_path wav_path);
   Print "Keys: n = next track, q = quit"].

(** What [main] prints when the render step failed. *)
Definition skipping : event :=
  Print "Skipping this file due to an error while creating the mixed file.".

(** What [main] does before it plays the first track: the banner, the
    folder dialog, and the list of the tracks found. *)
Definition announce (folder : string) (files : list string) : list event :=
  banner
  ++ [dialog; Print ("Found audio files in '" ++ folder ++ "':")]
  ++ ((λ x, Print ("  - " ++ x)) <$> files)
  ++ [Print (nl ++ "Starting playback with medium wave style effect ..." ++ nl);
      Print ("On Windows you can use: n = next track, q = quit, Ctrl+C = stop script." ++ nl)].

(** The events between two worlds of one run, and the directories that
    a list of events allocates. *)
Definition new_events (w w' : world) : list event :=
  drop (length (trace w)) (trace w').

Definition allocated (evs : list event) : list string :=
  evs ≫= λ ev, match ev with Mkdtemp _ d => [d] | _ => [] end.

(** The reading of the cleanup guarantee that does not hold: whatever
    happens, the directory allocated for a track is gone when the turn of
    that track is over. *)
Definition temp_dir_always_gone : Prop :=
  ∀ h ffplay_path ffmpeg_path folder filename w r w',
    STOP_ALL w = false →
    track_cycle h ffplay_path ffmpeg_path folder filename w = (r, w') →
    ∀ d, d ∈ allocated (new_events w w') → d ∉ tmp_dirs w'.

(** The reading of the render contract that does not hold: the render
    step raises a failure exactly when ffmpeg exits with a status other
    than 0 or cannot be started. *)
Definition render_fails_exactly_on_ffmpeg : Prop :=
  ∀ a ffmpeg_path music_file w,
    (∃ e w', mix_to_temp_wav a ffmpeg_path music_file w = (Raise e, w')
             ∧ RenderFailure e)
    ↔ (∃ c, render a = Exited c ∧ c ≠ 0%Z) ∨ render a = LaunchFailed.


(** ** Sample machines

    Concrete hosts on which the statements below are exercised. *)

Module Sample.

Definition ffplay : filepath := os_path_join "/opt/mw" "ffplay.exe".
Definition ffmpeg : filepath := os_path_join "/opt/mw" "ffmpeg.exe".

(** The answers for a track that renders and plays to its end. *)
Definition smooth (tmp : string) : track_env :=
  TrackEnv tmp (Exited 0) [Idle; Idle] (Exited 0) true.

(** A Windows console with [msvcrt]; [listing] is what the folder holds. *)
Definition windows (listing : list string) (ans : string → track_env) : host :=
  Host "nt" true "/opt/mw" (λ _, true) (λ _, true) (λ _, None)
       "/music" (λ _, listing) ans.

(** A machine without key polling. *)
Definition posix (listing : list string) (ans : string → track_env) : host :=
  Host "posix" false "/opt/mw" (λ _, true) (λ _, true) (λ _, None)
       "/music" (λ _, listing) ans.

(** A folder whose names are spelled in mixed case and in which
    "album.mp3" is a directory. *)
Definition shelf : host :=
  Host "nt" true "/opt/mw"
       (λ p, negb (String.eqb (basename p) "album.mp3"))
       (λ _, true) (λ _, None) "/music"
       (λ _, ["c.txt"; "B.WAV"; "album.mp3"; "a.Mp3"; "Tune.OPUS"])
       (λ _, smooth "t").

(** Answers for a listener who presses q while the first track plays, on
    a machine where ffmpeg exits with status 3 for "bad.mp3". *)
Definition listener (filename : string) : track_env :=
  if String.eqb filename "a.mp3" then
    TrackEnv "mw_mix_a" (Exited 0) [Idle; Key "x"; Key "q"; Idle] (Exited 0) true
  else if String.eqb filename "bad.mp3" then
    TrackEnv "mw_mix_bad" (Exited 3) [] (Exited 0) true
  else
    TrackEnv "mw_mix_b" (Exited 0) [Idle; Idle] (Exited 0) true.

End Sample.

(** ** Vocabulary for whole runs *)

(** Where a program named [base] is found: next to the script first, on
    the search path otherwise.  [find_ffplay] and [find_ffmpeg] are this
    lookup for their two names. *)
Definition located (h : host) (base : string) : option filepath :=
  let exe_name := if String.eqb (os_name h) "nt" then base ++ ".exe" else base in
  let local_path := os_path_join (script_dir h) exe_name in
  if isfile h local_path then Some local_path else which h exe_name.

Definition ffplay_missing : list event :=
  [Print "Error: ffplay not found.";
   Print "Install an ffmpeg build that includes ffplay";
   Print "and either put ffplay next to mw.py or add it to PATH."].

Definition ffmpeg_missing : list event :=
  [Print "Error: ffmpeg not found.";
   Print "Install an ffmpeg build and either put ffmpeg next to mw.py";
   Print "or add it to PATH."].

(** The source and the target of an ffmpeg command line, and the file of
    a player command line. *)
Definition ffmpeg_job (cmd : list arg) : option (filepath * filepath) :=
  match cmd with
  | [ArgPath _; Arg _; Arg _; ArgPath i; Arg _; Arg _; Arg _; Arg _;
     Arg _; Arg _; Arg _; Arg _; ArgPath o] => Some (i, o)
  | _ => None
  end.

Definition player_file (cmd : list arg) : option filepath :=
  match cmd with
  | [ArgPath _; Arg _; Arg _; ArgPath f] => Some f
  | _ => None
  end.

(** What one event has ffmpeg render and write, what it hands to the
    player, and the directory it allocates or removes. *)
Definition renders (ev : event) : list filepath :=
  match ev with
  | Run cmd => match ffmpeg_job cmd with
               | Some (i, _) => [i]
               | None => []
               end
  | _ => []
  end.

Definition writes (ev : event) : list filepath :=
  match ev with
  | Run cmd => match ffmpeg_job cmd with
               | Some (_, o) => [o]
               | None => []
               end
  | _ => []
  end.

Definition plays (ev : event) : list filepath :=
  match ev with
  | Run cmd | Popen cmd =>
      match player_file cmd with
      | Some f => [f]
      | None => []
      end
  | _ => []
  end.

Definition allocates (ev : event) : list string :=
  match ev with Mkdtemp _ d => [d] | _ => [] end.

Definition removes (ev : event) : list string :=
  match ev with Rmtree d => [d] | _ => [] end.

(** What a list of events renders, writes, plays and removes, in order. *)
Definition rendered (evs : list event) : list filepath := evs ≫= renders.
Definition written (evs : list event) : list filepath := evs ≫= writes.
Definition played (evs : list event) : list filepath := evs ≫= plays.
Definition removals (evs : list event) : list string := evs ≫= removes.

(** Order within a list of events: whatever an event [used] was [made]
    by an event that comes before it in the list, or is among [have]. *)
Definition preceded {A} (made used : event → list A) (have : list A)
    (evs : list event) : Prop :=
  ∀ pre ev post x,
    evs = (pre ++ ev :: post)%list → x ∈ used ev →
    x ∈ (have ++ (pre ≫= made))%list.

(** Events of the polling loop. *)
Definition control_event (ev : event) : bool :=
  match ev with
  | Getch _ | Sleep | Terminate _ => true
  | _ => false
  end.

(** Events that read the keyboard or act on a running player. *)
Definition polls_or_controls (ev : event) : bool :=
  match ev with
  | Getch _ | Sleep | Terminate _ | Popen _ => true
  | _ => false
  end.

(** Events that only print. *)
Definition is_print (ev : event) : bool :=
  match ev with Print _ => true | _ => false end.

(** Events that only address the listener: printing, and the folder
    dialog. *)
Definition talks (ev : event) : bool :=
  match ev with Print _ | AskDirectory _ => true | _ => false end.

(** The tracks for which a temporary directory can be created. *)
Definition gets_directory (h : host) (f : string) : bool :=
  match render (answers h f) with
  | Started _ => true
  | NoTempDir => false
  end.

(** A stretch of a run, from [w] to [w'] through the events [evs], is
    orderly for the list [tracks]: it renders a beginning of the list,
    in order; it hands the player only files it had ffmpeg write before,
    and in the order they were written; it removes only directories it
    had allocated before; it allocates one new directory for each
    render; and the directories that existed before still exist, the
    others being among those it allocated. *)
Definition orderly (tracks : list filepath) (w : world) (evs : list event)
    (w' : world) : Prop :=
  trace w' = (trace w ++ evs)%list
  ∧ rendered evs `prefix_of` tracks
  ∧ played evs `sublist_of` written evs
  ∧ preceded writes plays [] evs
  ∧ preceded allocates removes [] evs
  ∧ (λ d, os_path_join d "out.wav") <$> allocated evs = written evs
  ∧ length (allocated evs) = length (rendered evs)
  ∧ tmp_dirs w ⊆ tmp_dirs w'
  ∧ tmp_dirs w' ⊆ tmp_dirs w ∪ list_to_set (allocated evs)
  ∧ Forall (λ d, d ∉ tmp_dirs w) (allocated evs).

(** More sample machines. *)
Module Sample2.

(** A machine on which neither program is installed. *)
Definition bare : host :=
  Host "posix" false "/opt/mw" (λ _, false) (λ _, true) (λ _, None)
       "/music" (λ _, ["a.mp3"]) Sample.listener.

(** A machine with ffplay on the search path only, and no ffmpeg. *)
Definition player_only : host :=
  Host "posix" false "/opt/mw" (λ _, false) (λ _, true)
       (λ exe, if String.eqb exe "ffplay"
               then Some (os_path_join "/usr/bin" "ffplay") else None)
       "/music" (λ _, ["a.mp3"]) Sample.listener.

(** A listener who closes the folder dialog, and one who types the name
    of something that is not a directory. *)
Definition cancelled : host :=
  Host "nt" true "/opt/mw" (λ _, true) (λ _, true) (λ _, None)
       "" (λ _, ["a.mp3"]) Sample.listener.

Definition misdirected : host :=
  Host "nt" true "/opt/mw" (λ _, true) (λ _, false) (λ _, None)
       "/music/a.mp3" (λ _, []) Sample.listener.

(** Answers for a machine without key polling: ffplay exits with status
    1 for "a.mp3", ffmpeg fails for "bad.mp3", and ffplay cannot be
    started for "c.ogg". *)
Definition unattended (filename : string) : track_env :=
  if String.eqb filename "a.mp3" then
    TrackEnv "mw_mix_a" (Exited 0) [Key "q"] (Exited 1) true
  else if String.eqb filename "bad.mp3" then
    TrackEnv "mw_mix_bad" (Exited 3) [] (Exited 0) true
  else if String.eqb filename "c.ogg" then
    TrackEnv "mw_mix_c" (Exited 0) [] LaunchFailed true
  else
    TrackEnv "mw_mix_b" (Exited 0) [] (Exited 0) true.

(** Answers on a disk that fills up: a directory can be created for
    "a.mp3" only; and answers on a machine whose ffmpeg is broken: it
    exits with status 3 for "bad.mp3" and cannot be started for any
    other track. *)
Definition cramped (filename : string) : track_env :=
  if String.eqb filename "a.mp3" then
    TrackEnv "mw_mix_a" (Exited 0) [Idle] (Exited 0) true
  else
    TrackEnv "mw_mix_b" NoTempDir [Idle] (Exited 0) true.

Definition broken (filename : string) : track_env :=
  if String.eqb filename "bad.mp3" then
    TrackEnv "mw_mix_bad" (Exited 3) [] (Exited 0) true
  else
    TrackEnv "mw_mix_b" LaunchFailed [] (Exited 0) true.

(** Answers where ffplay cannot be started under key polling, and where
    the render of the track is interrupted from the keyboard. *)
Definition locked (filename : string) : track_env :=
  TrackEnv "mw_mix_a" (Exited 0) NotStarted (Exited 0) true.

Definition impatient (filename : string) : track_env :=
  TrackEnv "mw_mix_a" Interrupted [] (Exited 0) true.

(** Answers of a listener who skips "a.mp3" with N. *)
Definition skipper (filename : string) : track_env :=
  if String.eqb filename "a.mp3" then
    TrackEnv "mw_mix_a" (Exited 0) [Idle; Key "N"; Idle] (Exited 0) true
  else
    TrackEnv "mw_mix_b" (Exited 0) [Idle] (Exited 0) true.

End Sample2.

(** Both programs are found and the folder dialog gave a directory:
    [main] gets as far as the track list. *)
Definition set_up (h : host) : Prop :=
  is_Some (located h "ffplay") ∧ is_Some (located h "ffmpeg")
  ∧ askdirectory h ≠ "" ∧ isdir h (askdirectory h) = true.

(** * Properties *)

(** ** Strings *)

Section string_facts.

Lemma app_cons c s t : String c s ++ t = String c (s ++ t).
Proof. reflexivity. Qed.

Lemma substring_all s : substring 0 (String.length s) s = s.
Proof. induction s as [|c s IH]; simpl; [done|by rewrite IH]. Qed.

Lemma substring_skip pre suf :
  substring (String.length pre) (String.length suf) (pre ++ suf) = suf.
Proof. induction pre as [|c pre IH]; simpl; [apply substring_all|done]. Qed.

Lemma app_length s t :
  String.length (s ++ t) = (String.length s + String.length t)%nat.
Proof. induction s as [|c s IH]; simpl; [done|by rewrite IH]. Qed.

Lemma substring_split n m s :
  (n + m)%nat = String.length s →
  s = substring 0 n s ++ substring n m s.
Proof.
  revert s; induction n as [|n IH]; intros s Hlen; simpl in *.
  - subst m. destruct s; simpl; by rewrite ?substring_all.
  - destruct s as [|c s]; simpl in *; [done|].
    rewrite app_cons, <- (IH s) by lia. done.
Qed.

Lemma endswith1_spec s suf :
  Py.endswith1 s suf = true ↔ ∃ pre, s = pre ++ suf.
Proof.
  unfold Py.endswith1. rewrite andb_true_iff, Nat.leb_le, String.eqb_eq.
  split.
  - intros [Hle Hsub].
    exists (substring 0 (String.length s - String.length suf) s).
    pose proof (substring_split (String.length s - String.length suf)
                  (String.length suf) s ltac:(lia)) as Hsplit.
    by rewrite Hsub in Hsplit.
  - intros [pre ->]. rewrite app_length. split; [lia|].
    replace (String.length pre + String.length suf - String.length suf)%nat
      with (String.length pre) by lia.
    apply substring_skip.
Qed.

Lemma lower_app s t : Py.lower (s ++ t) = Py.lower s ++ Py.lower t.
Proof. induction s as [|c s IH]; simpl; [done|by rewrite IH]. Qed.

Lemma lower_length s : String.length (Py.lower s) = String.length s.
Proof. induction s as [|c s IH]; simpl; [done|by rewrite IH]. Qed.

Lemma app_inv_length s1 s2 t1 t2 :
  s1 ++ s2 = t1 ++ t2 → String.length s1 = String.length t1 →
  s1 = t1 ∧ s2 = t2.
Proof.
  revert t1; induction s1 as [|c s1 IH]; intros [|d t1] Heq Hlen;
    simpl in *; try done.
  injection Heq as -> Heq. destruct (IH t1 Heq) as [-> ->]; [lia|done].
Qed.

Lemma substring_length n m s :
  (n + m <= String.length s)%nat → String.length (substring n m s) = m.
Proof.
  revert n m; induction s as [|c s IH]; intros [|n] [|m] Hle;
    simpl in *; try done; try lia.
  - rewrite IH; [done|lia].
  - apply IH. lia.
  - apply IH. lia.
Qed.

Lemma lower_ascii_code c :
  N_of_ascii (Py.lower_ascii c) =
  (let n := N_of_ascii c in
   if (65 <=? n) && (n <=? 90) then n + 32 else n)%N.
Proof.
  unfold Py.lower_ascii. cbv zeta.
  destruct ((65 <=? N_of_ascii c) && (N_of_ascii c <=? 90))%N eqn:Hup;
    [|done].
  apply andb_true_iff in Hup as [_ Hle%N.leb_le].
  apply N_ascii_embedding. lia.
Qed.

(** [str.lower] sends two bytes to the same byte exactly when they are
    the same character, case ignored. *)
Lemma lower_ascii_same c d :
  Py.lower_ascii c = Py.lower_ascii d ↔ same_letter c d.
Proof.
  unfold same_letter. cbv zeta. split.
  - intros Heq%(f_equal N_of_ascii). rewrite !lower_ascii_code in Heq.
    cbv zeta in Heq.
    destruct (N.leb_spec 65 (N_of_ascii c)), (N.leb_spec (N_of_ascii c) 90),
      (N.leb_spec 65 (N_of_ascii d)), (N.leb_spec (N_of_ascii d) 90);
      simpl in Heq; lia.
  - intros Hsame.
    rewrite <- (ascii_N_embedding (Py.lower_ascii c)),
      <- (ascii_N_embedding (Py.lower_ascii d)).
    f_equal. rewrite !lower_ascii_code. cbv zeta.
    destruct (N.leb_spec 65 (N_of_ascii c)), (N.leb_spec (N_of_ascii c) 90),
      (N.leb_spec 65 (N_of_ascii d)), (N.leb_spec (N_of_ascii d) 90);
      simpl; lia.
Qed.

Lemma lower_same s t : Py.lower s = Py.lower t ↔ same_nocase s t.
Proof.
  revert t; induction s as [|c s IH]; intros [|d t]; simpl; try done.
  rewrite <- IH, <- lower_ascii_same. split.
  - by intros [= -> ->].
  - by intros [-> ->].
Qed.

(** Ending in [ext] after lowering is ending in a spelling of [ext]. *)
Lemma lower_endswith1 f ext :
  Py.lower ext = ext →
  Py.endswith1 (Py.lower f) ext = true ↔ ends_with_nocase f ext.
Proof.
  intros Hext. rewrite endswith1_spec. unfold ends_with_nocase.
  setoid_rewrite <- lower_same. split.
  - intros [pre Hpre].
    pose proof (f_equal String.length Hpre) as Hlen.
    rewrite app_length, lower_length in Hlen.
    set (n := (String.length f - String.length ext)%nat).
    pose proof (substring_split n (String.length ext) f ltac:(lia)) as Hsplit.
    exists (substring 0 n f), (substring n (String.length ext) f).
    split; [done|].
    rewrite Hsplit, lower_app in Hpre at 1.
    apply app_inv_length in Hpre as [_ Hq]; [by rewrite Hq, Hext|].
    rewrite lower_length, substring_length; lia.
  - intros (pre & suf & -> & Hsuf). exists (Py.lower pre).
    by rewrite lower_app, Hsuf, Hext.
Qed.

End string_facts.

(** ** The track list *)

Section track_list.

Lemma sort_permutation l : Py.sort l ≡ₚ l.
Proof. apply merge_sort_Permutation. Qed.

Lemma sort_sorted l : StronglySorted String.le (Py.sort l).
Proof. apply (StronglySorted_merge_sort String.le). Qed.

(** A sorted arrangement of the same names is the one [Py.sort] returns:
    the outcome of sorting does not depend on the algorithm. *)
Lemma sort_unique l l' :
  StronglySorted String.le l' → l' ≡ₚ l → l' = Py.sort l.
Proof.
  intros Hs Hp. apply (StronglySorted_unique String.le); [done| |].
  - apply sort_sorted.
  - by rewrite Hp, sort_permutation.
Qed.

Lemma sort_of_permutation l l' : l ≡ₚ l' → Py.sort l = Py.sort l'.
Proof.
  intros Hp. apply sort_unique; [apply sort_sorted|].
  by rewrite sort_permutation.
Qed.

Lemma filter_permutation {A} (f : A → bool) (l l' : list A) :
  l ≡ₚ l' → List.filter f l ≡ₚ List.filter f l'.
Proof.
  induction 1 as [|x l l' _ IH|x y l|l l' l'' _ IH1 _ IH2]; simpl.
  - done.
  - destruct (f x); by rewrite IH.
  - destruct (f x), (f y); try done. apply perm_swap.
  - by rewrite IH1.
Qed.

Lemma supported_extensions_lower :
  Forall (λ ext, Py.lower ext = ext) SUPPORTED_EXTENSIONS.
Proof. repeat constructor. Qed.

Lemma is_track_spec isfile folder f :
  is_track isfile folder f = true ↔
  isfile (os_path_join folder f) = true
  ∧ ∃ ext, ext ∈ SUPPORTED_EXTENSIONS ∧ ends_with_nocase f ext.
Proof.
  unfold is_track, Py.endswith.
  rewrite andb_true_iff, existsb_exists.
  pose proof supported_extensions_lower as Hlow.
  rewrite Forall_forall in Hlow.
  split; intros [Hf (ext & Hin & Hext)]; (split; [done|]); exists ext.
  - apply list_elem_of_In in Hin. split; [done|].
    apply lower_endswith1; auto.
  - split; [by apply list_elem_of_In|]. apply lower_endswith1; auto.
Qed.

Lemma print_each_run prefix xs w :
  print_each prefix xs w = (Return tt, log ((λ x, Print (prefix ++ x)) <$> xs) w).
Proof.
  revert w; induction xs as [|x xs IH]; intros w; simpl.
  - unfold ret, log. destruct w; simpl. by rewrite app_nil_r.
  - unfold bind, print, emit. rewrite IH. unfold log; simpl.
    by rewrite <- app_assoc.
Qed.

Lemma log_log evs evs' w : log evs' (log evs w) = log (evs ++ evs') w.
Proof. unfold log; simpl. by rewrite app_assoc. Qed.

Lemma main_no_tracks h ffplay_path ffmpeg_path w :
  ready h ffplay_path ffmpeg_path →
  track_list (isfile h) (askdirectory h) (listdir h (askdirectory h)) = [] →
  main h w =
    (Return tt,
     log (banner ++
          [dialog;
           Print "No supported audio files found in the selected folder.";
           Print "Supported extensions:";
           Print ".mp3, .wav, .flac, .ogg, .m4a, .aac, .wma, .opus"]) w).
Proof.
  intros (Hplay & Hmpeg & Hsel & Hdir) Hnone.
  unfold main, choose_folder, bind, print, emit, ret.
  rewrite Hplay, Hmpeg.
  destruct (String.eqb_spec (askdirectory h) "") as [|_]; [done|].
  rewrite Hdir, Hnone. simpl. by rewrite !log_log.
Qed.

Lemma main_playlist h ffplay_path ffmpeg_path w :
  ready h ffplay_path ffmpeg_path →
  let folder := askdirectory h in
  let files := track_list (isfile h) folder (listdir h folder) in
  files ≠ [] →
  main h w =
    (for_files h ffplay_path ffmpeg_path folder files;; print done_message)
      (log (announce folder files) w).
Proof.
  intros (Hplay & Hmpeg & Hsel & Hdir) folder files Hsome.
  unfold main, choose_folder, print, emit, bind, ret.
  rewrite Hplay, Hmpeg.
  destruct (String.eqb_spec (askdirectory h) "") as [|_]; [done|].
  rewrite Hdir. cbn [negb]. cbv beta iota.
  fold folder. fold files.
  rewrite bool_decide_false by done.
  rewrite print_each_run, !log_log. reflexivity.
Qed.

End track_list.

(** C3.  The track list [main] computes for the chosen folder holds
    exactly the directory entries that are regular files and whose name
    ends, case ignored, in one of the supported extensions: the last
    characters of the name are those of the extension, each the same
    byte or the other case of the same letter.  It is a rearrangement of
    those entries in ascending lexicographic order.  When it is empty,
    [main] prints that no supported audio files were found (with the
    list of extensions), returns normally and the process exits with
    status 0.  A folder that lists a.mp3, b.wav and c.txt, in any order,
    gives the track list [a.mp3; b.wav]. *)
Theorem track_list_correct (h : host) (ffplay_path ffmpeg_path : filepath) :
  let folder := askdirectory h in
  let files := track_list (isfile h) folder (listdir h folder) in
  (∀ f, f ∈ files ↔
        f ∈ listdir h folder
        ∧ isfile h (os_path_join folder f) = true
        ∧ ∃ ext, ext ∈ SUPPORTED_EXTENSIONS ∧ ends_with_nocase f ext)
  ∧ files ≡ₚ List.filter (is_track (isfile h) folder) (listdir h folder)
  ∧ StronglySorted String.le files
  ∧ (ready h ffplay_path ffmpeg_path → files = [] →
     ∀ w, let w' := log (banner ++
                     [dialog;
                      Print "No supported audio files found in the selected folder.";
                      Print "Supported extensions:";
                      Print ".mp3, .wav, .flac, .ogg, .m4a, .aac, .wma, .opus"]) w in
          main h w = (Return tt, w') ∧ script h w = (0%Z, w'))
  ∧ (listdir h folder ≡ₚ ["a.mp3"; "b.wav"; "c.txt"] →
     (∀ f, f ∈ listdir h folder → isfile h (os_path_join folder f) = true) →
     files = ["a.mp3"; "b.wav"]).
Proof.
  intros folder files. split_and!.
  - intros f. unfold files, track_list.
    rewrite sort_permutation, list_elem_of_In, filter_In, is_track_spec.
    rewrite <- list_elem_of_In. tauto.
  - apply sort_permutation.
  - apply sort_sorted.
  - intros Hready Hnone w w'.
    pose proof (main_no_tracks h _ _ w Hready Hnone) as Hmain.
    split; [done|]. unfold script. by rewrite Hmain.
  - intros Hperm Hfiles. unfold files, track_list.
    rewrite (sort_of_permutation _ ["a.mp3"; "b.wav"]); [by vm_compute|].
    rewrite (filter_permutation _ _ _ Hperm).
    assert (∀ f, f ∈ ["a.mp3"; "b.wav"; "c.txt"] →
                 isfile h (os_path_join folder f) = true) as Hf.
    { intros f Hin. apply Hfiles. by rewrite Hperm. }
    unfold is_track. simpl.
    rewrite !Hf by set_solver. by vm_compute.
Qed.

Lemma track_list_correct_witness :
  let shelf := track_list (isfile Sample.shelf) "/music"
                 (listdir Sample.shelf "/music") in
  ("B.WAV" ∈ shelf ∧ "a.Mp3" ∈ shelf ∧ "Tune.OPUS" ∈ shelf
   ∧ "album.mp3" ∉ shelf)
  ∧ track_list (λ _, true) "/music" ["c.txt"; "b.wav"; "a.mp3"] = ["a.mp3"; "b.wav"]
  ∧ script (Sample.windows ["notes.txt"] (λ _, Sample.smooth "t")) (boot ∅)
    = (0%Z,
       log (banner ++
            [dialog;
             Print "No supported audio files found in the selected folder.";
             Print "Supported extensions:";
             Print ".mp3, .wav, .flac, .ogg, .m4a, .aac, .wma, .opus"])
           (boot ∅)).
Proof.
  pose proof (track_list_correct Sample.shelf Sample.ffplay Sample.ffmpeg)
    as (Hin & _).
  split_and!.
  - apply Hin. split_and!; [apply (bool_decide_unpack _); by vm_compute|reflexivity|].
    exists ".wav". split; [apply (bool_decide_unpack _); by vm_compute|]. exists "B", ".WAV".
    split; [reflexivity|]. unfold same_nocase, same_letter. simpl. lia.
  - apply Hin. split_and!; [apply (bool_decide_unpack _); by vm_compute|reflexivity|].
    exists ".mp3". split; [apply (bool_decide_unpack _); by vm_compute|]. exists "a", ".Mp3".
    split; [reflexivity|]. unfold same_nocase, same_letter. simpl. lia.
  - apply Hin. split_and!; [apply (bool_decide_unpack _); by vm_compute|reflexivity|].
    exists ".opus". split; [apply (bool_decide_unpack _); by vm_compute|]. exists "Tune", ".OPUS".
    split; [reflexivity|]. unfold same_nocase, same_letter. simpl. lia.
  - intros (_ & Hfile & _)%Hin. discriminate Hfile.
  - apply (track_list_correct
             (Sample.windows ["c.txt"; "b.wav"; "a.mp3"] (λ _, Sample.smooth "t"))
             Sample.ffplay Sample.ffmpeg).
    + simpl. apply Permutation_rev.
    + reflexivity.
  - apply (track_list_correct
             (Sample.windows ["notes.txt"] (λ _, Sample.smooth "t"))
             Sample.ffplay Sample.ffmpeg).
    + repeat split; done.
    + reflexivity.
Defined.

(** ** The filter graph *)

Section filter_graph.
Import FilterGraph.

Lemma defined_before_b_sound seen ss :
  defined_before_b seen ss = true →
  ∀ k s p, ss !! k = Some s → p ∈ consumes s →
    p = primary_input ∨ p ∈ seen
    ∨ ∃ k' s', k' < k ∧ ss !! k' = Some s' ∧ p ∈ produces s'.
Proof.
  revert seen; induction ss as [|s0 ss IH]; intros seen Hb k s p Hk Hp;
    [done|].
  simpl in Hb. apply andb_true_iff in Hb as [Hhd Htl].
  destruct k as [|k]; simpl in Hk.
  - injection Hk as ->. rewrite forallb_forall in Hhd.
    apply list_elem_of_In, Hhd, bool_decide_eq_true in Hp. tauto.
  - destruct (IH _ Htl k s p Hk Hp) as [->|[Hin|(k' & s' & Hlt & Hk' & Hin)]].
    + by left.
    + apply elem_of_app in Hin as [Hin|Hin]; [tauto|].
      right; right. exists 0, s0. split_and!; [lia|done|done].
    + right; right. exists (S k'), s'. split_and!; [lia|done|done].
Qed.

Lemma defined_before_b_correct ss :
  defined_before_b [] ss = true → pins_defined_before ss.
Proof.
  intros Hb k s p Hk Hp.
  destruct (defined_before_b_sound _ _ Hb k s p Hk Hp) as [?|[Hin|?]];
    [tauto| |tauto].
  by apply elem_of_nil in Hin.
Qed.

(** A pin that is produced once has one producer. *)
Lemma producer_unique ss a b sa sb p :
  NoDup (all_produced ss) →
  ss !! a = Some sa → ss !! b = Some sb →
  p ∈ produces sa → p ∈ produces sb → a = b.
Proof.
  unfold all_produced.
  revert a b; induction ss as [|s ss IH]; intros a b Hnd Ha Hb Hpa Hpb;
    [done|].
  rewrite bind_cons in Hnd. apply NoDup_app in Hnd as (_ & Hdisj & Hnd).
  assert (∀ i si, ss !! i = Some si → p ∈ produces si → p ∉ produces s) as Hno.
  { intros i si Hi Hpi Hps. apply (Hdisj p Hps).
    apply list_elem_of_bind. exists si. split; [done|].
    by eapply list_elem_of_lookup_2. }
  destruct a as [|a], b as [|b]; simpl in *.
  - done.
  - injection Ha as ->. by destruct (Hno b sb).
  - injection Hb as ->. by destruct (Hno a sa).
  - f_equal. by apply IH.
Qed.

(** When pins are defined before use and produced once, signal only flows
    forward through the list of stages. *)
Lemma feeds_forward ss a b :
  pins_defined_before ss → NoDup (all_produced ss) →
  primary_input ∉ all_produced ss →
  tc (feeds ss) a b → a < b.
Proof.
  intros Hdef Hnd Hprim Htc.
  assert (∀ x y, feeds ss x y → x < y) as Hstep.
  { intros x y (sx & sy & p & Hx & Hy & Hpx & Hpy).
    destruct (Hdef y sy p Hy Hpy) as [->|(k' & s' & Hlt & Hk' & Hp')].
    - destruct Hprim. apply list_elem_of_bind. exists sx.
      split; [done|]. by eapply list_elem_of_lookup_2.
    - by rewrite (producer_unique ss x k' sx s' p). }
  induction Htc as [x y Hxy|x y z Hxy _ IH].
  - by apply Hstep.
  - apply Hstep in Hxy. lia.
Qed.

Lemma forward_acyclic ss :
  pins_defined_before ss → NoDup (all_produced ss) →
  primary_input ∉ all_produced ss → acyclic ss.
Proof.
  intros Hdef Hnd Hprim a Hcyc.
  pose proof (feeds_forward ss a a Hdef Hnd Hprim Hcyc). lia.
Qed.

Lemma parse_build :
  parse build_filter_complex_for_music_plus_effects = Some the_graph.
Proof. by vm_compute. Qed.

End filter_graph.

(** C1.  In the graph the builder describes, every pin a stage consumes
    is the primary input [0:a] or is produced by a stage that comes
    earlier; no stage feeds itself through any sequence of stages; and
    the only pin that is produced without being consumed, the declared
    output, is [out], which is also the pin the ffmpeg command maps to
    the output file. *)
Theorem filter_graph_pins_well_formed :
  ∃ g, FilterGraph.parse build_filter_complex_for_music_plus_effects = Some g
    ∧ FilterGraph.pins_defined_before (FilterGraph.stages g)
    ∧ FilterGraph.acyclic (FilterGraph.stages g)
    ∧ FilterGraph.declared_outputs (FilterGraph.stages g)
      = [FilterGraph.Named "out"]
    ∧ (∀ ffmpeg_path music_file tmp_path,
         ∃ front back,
           ffmpeg_cmd ffmpeg_path music_file
             build_filter_complex_for_music_plus_effects tmp_path
           = (front ++ [Arg "-map"; Arg "[out]"] ++ back)%list).
Proof.
  exists the_graph. split; [apply parse_build|].
  assert (FilterGraph.pins_defined_before (FilterGraph.stages the_graph)) as Hdef.
  { apply defined_before_b_correct. by vm_compute. }
  split_and!; [done| |by vm_compute|].
  - apply forward_acyclic; [done| |].
    + apply (bool_decide_eq_true_1 _). by vm_compute.
    + apply (bool_decide_eq_true_1 _). by vm_compute.
  - intros ffmpeg_path music_file tmp_path.
    by exists [ArgPath ffmpeg_path; Arg "-y"; Arg "-i"; ArgPath music_file;
               Arg "-filter_complex";
               Arg build_filter_complex_for_music_plus_effects],
              [Arg "-ac"; Arg "1"; Arg "-ar"; Arg "44100"; ArgPath tmp_path].
Qed.

(** C7, as the spec words it, does not hold: the anti-aliasing of the
    main path's bit crusher is not minimal.  Its option is [aa=1]; the
    bit crusher of the crackle path, in the same graph, has [aa=0.0],
    which is less. *)
Lemma main_crusher_aa_is_not_minimal :
  (∃ g main crackle mc kc lo,
     FilterGraph.parse build_filter_complex_for_music_plus_effects = Some g
     ∧ FilterGraph.path_from g "0:a" = Some main
     ∧ FilterGraph.path_from g "nk" = Some crackle
     ∧ main !! 6%nat = Some mc ∧ crackle !! 2%nat = Some kc
     ∧ mc = FilterGraph.Filter [] "acrusher"
              [("bits", "9"); ("mode", "log"); ("aa", "1")] []
     ∧ kc = FilterGraph.Filter [] "acrusher"
              [("bits", "2"); ("mode", "log"); ("aa", "0.0")] []
     ∧ FilterGraph.value mc "aa" = Some 1%Q
     ∧ FilterGraph.value kc "aa" = Some lo
     ∧ (lo == 0)%Q ∧ (lo < 1)%Q)
  ∧ ¬ main_crusher_aa_is_minimal.
Proof.
  split.
  - do 6 eexists. split; [apply parse_build|].
    split; [by vm_compute|]. split; [by vm_compute|].
    split; [reflexivity|]. split; [reflexivity|].
    split; [reflexivity|]. split; [reflexivity|].
    split; [by vm_compute|]. split; [by vm_compute|].
    split; by vm_compute.
  - intros Hmin.
    specialize (Hmin the_graph _
      (FilterGraph.Filter [] "acrusher"
         [("bits", "9"); ("mode", "log"); ("aa", "1")] []) 1%Q
      parse_build eq_refl).
    assert (Forall (λ aa', (1 <= aa')%Q) (crusher_aa the_graph)) as Hall.
    { apply Hmin; [|reflexivity|by vm_compute].
      by apply (list_elem_of_lookup_2 _ 6%nat). }
    assert ((0 # 10) ∈ crusher_aa the_graph) as Hin.
    { vm_compute. apply elem_of_cons. right. by left. }
    rewrite Forall_forall in Hall. specialize (Hall _ Hin).
    by vm_compute in Hall.
Qed.

(** C7, amended.  The path that starts at the primary input is, in this
    order: a downmix to mono; a high-pass at 220 Hz and a low-pass at
    4500 Hz; three equalizer bands, a boost of 3 at 350 Hz, a smaller
    boost of 1.5 at 1000 Hz and a cut of 2 at 2600 Hz; then the bit
    crusher with [bits=9], [mode=log] and [aa=1], the greatest
    anti-aliasing setting among the bit crushers of the graph, another
    of which has less; a gain of 0 dB follows it and carries the label
    [a0], on which the path ends. *)
Theorem main_content_path :
  ∃ g c down hp lp eq1 eq2 eq3 crush vol,
    FilterGraph.parse build_filter_complex_for_music_plus_effects = Some g
    ∧ FilterGraph.path_from g "0:a" = Some c
    ∧ c = [down; hp; lp; eq1; eq2; eq3; crush; vol]
    ∧ down = FilterGraph.Filter ["0:a"] "aformat" [("channel_layouts", "mono")] []
    ∧ (FilterGraph.fname hp = "highpass" ∧ FilterGraph.value hp "f" = Some 220%Q)
    ∧ (FilterGraph.fname lp = "lowpass" ∧ FilterGraph.value lp "f" = Some 4500%Q)
    ∧ Forall (λ f, FilterGraph.fname f = "equalizer") [eq1; eq2; eq3]
    ∧ FilterGraph.value eq1 "f" = Some 350%Q
    ∧ FilterGraph.value eq2 "f" = Some 1000%Q
    ∧ FilterGraph.value eq3 "f" = Some 2600%Q
    ∧ (∃ g1 g2 g3,
         FilterGraph.value eq1 "g" = Some g1
         ∧ FilterGraph.value eq2 "g" = Some g2
         ∧ FilterGraph.value eq3 "g" = Some g3
         ∧ (0 < g2)%Q ∧ (g2 < g1)%Q ∧ (g3 < 0)%Q
         ∧ (g1 == 3)%Q ∧ (g2 == 3 # 2)%Q ∧ (g3 == -2)%Q)
    ∧ crush = FilterGraph.Filter [] "acrusher"
                [("bits", "9"); ("mode", "log"); ("aa", "1")] []
    ∧ FilterGraph.value crush "bits" = Some 9%Q
    ∧ FilterGraph.param crush "mode" = Some "log"
    ∧ FilterGraph.value crush "aa" = Some 1%Q
    ∧ Forall (λ aa, (aa <= 1)%Q) (crusher_aa g)
    ∧ Exists (λ aa, (aa < 1)%Q) (crusher_aa g)
    ∧ vol = FilterGraph.Filter [] "volume" [("", "0dB")] ["a0"]
    ∧ FilterGraph.end_labels c = ["a0"]
    ∧ Forall (λ f, FilterGraph.in_labels f = [] ∧ FilterGraph.out_labels f = [])
             [hp; lp; eq1; eq2; eq3; crush].
Proof.
  do 2 eexists. do 8 eexists.
  split; [apply parse_build|].
  split; [by vm_compute|].
  split; [reflexivity|].
  split_and!; try by vm_compute.
  - repeat constructor.
  - do 3 eexists. split_and!; by vm_compute.
  - repeat constructor; by vm_compute.
  - apply Exists_cons. right. apply Exists_cons. left. by vm_compute.
  - repeat constructor.
Qed.

(** C8.  The whistle path ends on [w1] and the crackle path on [k1];
    one [amix] stage reads exactly these two pins, with [normalize=0],
    and writes [w].  The stage that writes [out] is an [amix] that reads
    [a0], the end of the main content path, and [w], with
    [duration=first], so that its first input [a0] sets the length, and
    with [normalize=0]. *)
Theorem effects_and_final_mix :
  ∃ g main whistle crackle fx mix,
    FilterGraph.parse build_filter_complex_for_music_plus_effects = Some g
    ∧ FilterGraph.path_from g "0:a" = Some main
    ∧ FilterGraph.end_labels main = ["a0"]
    ∧ FilterGraph.path_from g "wsrc" = Some whistle
    ∧ (FilterGraph.names <$> FilterGraph.path_into g "wsrc") = Some ["sine"]
    ∧ FilterGraph.end_labels whistle = ["w1"]
    ∧ FilterGraph.path_from g "nk" = Some crackle
    ∧ (FilterGraph.names <$> FilterGraph.path_into g "nk") = Some ["anoisesrc"]
    ∧ FilterGraph.end_labels crackle = ["k1"]
    ∧ FilterGraph.path_into g "w" = Some [fx]
    ∧ fx = FilterGraph.Filter ["w1"; "k1"] "amix"
             [("inputs", "2"); ("normalize", "0")] ["w"]
    ∧ FilterGraph.path_into g "out" = Some [mix]
    ∧ mix = FilterGraph.Filter ["a0"; "w"] "amix"
              [("inputs", "2"); ("duration", "first"); ("normalize", "0")]
              ["out"]
    ∧ FilterGraph.param fx "normalize" = Some "0"
    ∧ FilterGraph.param mix "normalize" = Some "0"
    ∧ FilterGraph.param mix "duration" = Some "first"
    ∧ head (FilterGraph.in_labels mix) = Some "a0".
Proof.
  do 6 eexists.
  split; [apply parse_build|].
  split_and!; by vm_compute.
Qed.

(** ** The render step *)

Section render.

Lemma log_nil w : log [] w = w.
Proof. destruct w. unfold log; simpl. by rewrite app_nil_r. Qed.

Lemma made_gives (d : string) (X : gset string) : d ∈ {[d]} ∪ X.
Proof. by apply elem_of_union_l, elem_of_singleton. Qed.

Lemma removed_takes (d : string) (X : gset string) : d ∉ X ∖ {[d]}.
Proof. rewrite elem_of_difference, elem_of_singleton. tauto. Qed.

Lemma made_then_removed (d : string) (X : gset string) :
  d ∉ X → ({[d]} ∪ X) ∖ {[d]} = X.
Proof.
  intros Hd.
  rewrite difference_union_distr_l_L, difference_diag_L, union_empty_l_L.
  by apply difference_disjoint_L, disjoint_singleton_r.
Qed.

Lemma mkdtemp_pick_fresh cand existing :
  mkdtemp_pick cand existing ∉ existing.
Proof. unfold mkdtemp_pick. case_decide; [apply is_fresh|done]. Qed.

(** The cleanup never raises; it removes the directory when it is
    there and the removal succeeds. *)
Lemma remove_quietly_run ok d w :
  remove_quietly ok d w =
    (Return tt,
     if bool_decide (d ∈ tmp_dirs w) then
       if ok then removed d (log [Rmtree d] w) else log [Rmtree d] w
     else w).
Proof.
  unfold remove_quietly, os_path_isdir, shutil_rmtree, try_except, bind, ret.
  cbv beta iota.
  destruct (bool_decide (d ∈ tmp_dirs w)) eqn:Hin; cbv beta iota; [|done].
  change (tmp_dirs (log [Rmtree d] w)) with (tmp_dirs w).
  rewrite ?Hin. by destruct ok.
Qed.

(** Every way a render attempt can end. *)
Lemma mix_to_temp_wav_run a ffmpeg_path music_file w :
  let d := mkdtemp_pick (tmp_name a) (tmp_dirs w) in
  let w1 := log (render_events ffmpeg_path music_file d) (made d w) in
  let e_log c := [PrintExc "Error while mixing with ffmpeg: " (CalledProcessError c);
                  Rmtree d] in
  mix_to_temp_wav a ffmpeg_path music_file w =
    match render a with
    | NoTempDir => (Raise OSError, w)
    | Started (Exited c) =>
        if (c =? 0)%Z then (Return (os_path_join d "out.wav"), w1)
        else (Raise (CalledProcessError c),
              if rmtree_ok a then removed d (log (e_log c) w1)
              else log (e_log c) w1)
    | Started LaunchFailed => (Raise OSError, w1)
    | Started Interrupted => (Raise KeyboardInterrupt, w1)
    end.
Proof.
  intros d w1 e_log.
  unfold mix_to_temp_wav, mkdtemp, subprocess_run,
    try_except, bind, print, emit, raise, ret.
  destruct (render a) as [fate|]; [|done].
  unfold ffmpeg_fate. fold d. cbv beta iota zeta. rewrite !log_log.
  change (log _ (World _ _ _)) with w1.
  destruct fate as [c| |]; [|done|done].
  cbn [andb]. destruct (c =? 0)%Z; cbn [negb]; cbv beta iota; [done|].
  rewrite remove_quietly_run.
  rewrite bool_decide_true by apply made_gives.
  destruct (rmtree_ok a); rewrite !log_log; done.
Qed.

End render.

(** ** The playback control loop *)

Section playback.

Lemma bind_emit {A} ev (k : unit → M A) w :
  bind (emit ev) k w = k tt (log [ev] w).
Proof. reflexivity. Qed.

Lemma inert_key ch :
  inert (Key ch) →
  is_key ch ["n"; "N"]%char = false ∧ is_key ch ["q"; "Q"]%char = false.
Proof.
  simpl. rewrite !not_elem_of_cons. intros (Hn & HN & Hq & HQ & _).
  unfold is_key.
  split; apply bool_decide_eq_false; rewrite !not_elem_of_cons;
    split_and!; try done; apply not_elem_of_nil.
Qed.

Lemma quit_key_not_skip ch :
  ch ∈ ["q"; "Q"]%char → is_key ch ["n"; "N"]%char = false.
Proof.
  intros Hch.
  repeat (apply elem_of_cons in Hch as [->|Hch]; [by vm_compute|]).
  by apply elem_of_nil in Hch.
Qed.

Lemma poll_loop_inert cmd pre rest w :
  Forall inert pre →
  poll_loop cmd (pre ++ rest) w = poll_loop cmd rest (log (tick_events pre) w).
Proof.
  intros Hpre. revert w.
  induction Hpre as [|t pre Ht _ IH]; intros w; [by rewrite log_nil|].
  destruct t as [|ch|]; [| |done].
  - simpl. unfold bind at 1, emit. rewrite IH, log_log. done.
  - destruct (inert_key ch Ht) as [Hn Hq].
    simpl. unfold bind at 1, emit. rewrite Hn, Hq.
    unfold bind at 1. rewrite IH, !log_log. done.
Qed.

(** The loop touches no directory; it raises the flag exactly when it
    answers ["quit"], and the only exception it lets out is the keyboard
    interrupt. *)
Lemma poll_loop_facts cmd ticks w r w' :
  poll_loop cmd ticks w = (r, w') →
  tmp_dirs w' = tmp_dirs w
  ∧ ((r = Return None ∨ r = Return (Some "next") ∨ r = Raise KeyboardInterrupt)
     ∧ STOP_ALL w' = STOP_ALL w
     ∨ r = Return (Some "quit") ∧ STOP_ALL w' = true).
Proof.
  revert w; induction ticks as [|t ticks IH]; intros w Hrun.
  - injection Hrun as <- <-. tauto.
  - destruct t as [|ch|]; simpl in Hrun.
    + unfold bind at 1, emit in Hrun. apply IH in Hrun. done.
    + unfold bind at 1, emit in Hrun.
      destruct (is_key ch ["n"; "N"]%char).
      { injection Hrun as <- <-. simpl. tauto. }
      destruct (is_key ch ["q"; "Q"]%char).
      { injection Hrun as <- <-. simpl. tauto. }
      unfold bind at 1 in Hrun. apply IH in Hrun. done.
    + injection Hrun as <- <-. tauto.
Qed.






(** Playback where keys are polled, in terms of the loop. *)
Lemma play_interactive h a ffplay_path wav_path w :
  interactive h →
  let cmd := ffplay_cmd ffplay_path wav_path in
  play_wav_with_ffplay h a ffplay_path wav_path w =
    match keys a with
    | NotStarted => (Raise OSError, log [Popen cmd] w)
    | Polled ticks =>
        match poll_loop cmd ticks (log (player_started ffplay_path wav_path) w) with
        | (Return (Some v), w') => (Return v, w')
        | (Return None, w') => (Return "done", w')
        | (Raise KeyboardInterrupt, w') =>
            (Return "quit", World true (tmp_dirs w') (trace w' ++ [Terminate cmd]))
        | (Raise e, w') => (Raise e, w')
        end
    end.
Proof.
  intros [Hnt Hkb] cmd. unfold play_wav_with_ffplay.
  rewrite Hnt, Hkb, String.eqb_refl. cbn [negb]. cbv iota.
  unfold subprocess_Popen, bind, try_except, print, emit, set_STOP_ALL,
    raise, ret.
  fold cmd. destruct (keys a) as [ticks|]; [|done].
  rewrite log_log.
  change (app [Popen cmd] [Print "Keys: n = next track, q = quit"])
    with (player_started ffplay_path wav_path).
  destruct (poll_loop cmd ticks _) as [[[v|]|[]] w']; done.
Qed.

(** Playback under a blocking wait. *)
Lemma play_blocking h a ffplay_path wav_path w :
  ¬ interactive h →
  let w1 := log [Run (ffplay_cmd ffplay_path wav_path)] w in
  play_wav_with_ffplay h a ffplay_path wav_path w =
    match play a with
    | Exited _ => (Return "done", w1)
    | LaunchFailed => (Raise OSError, w1)
    | Interrupted => (Raise KeyboardInterrupt, w1)
    end.
Proof.
  intros Hno w1. unfold play_wav_with_ffplay.
  assert (∀ r,
    (subprocess_run (ffplay_cmd ffplay_path wav_path) false r;; ret "done") w
    = match r with
      | Exited _ => (Return "done", w1)
      | LaunchFailed => (Raise OSError, w1)
      | Interrupted => (Raise KeyboardInterrupt, w1)
      end) as Hrun.
  { intros []; done. }
  destruct (String.eqb_spec (os_name h) "nt") as [Hnt|_]; [|apply Hrun].
  destruct (has_msvcrt h) eqn:Hkb; [|apply Hrun].
  by destruct Hno.
Qed.

Lemma interactive_dec h : interactive h ∨ ¬ interactive h.
Proof.
  unfold interactive.
  destruct (String.eqb_spec (os_name h) "nt"), (has_msvcrt h);
    intuition congruence.
Qed.

(** Playback touches no directory, and raises the flag exactly when it
    answers ["quit"]. *)
Lemma play_facts h a ffplay_path wav_path w r w' :
  play_wav_with_ffplay h a ffplay_path wav_path w = (r, w') →
  tmp_dirs w' = tmp_dirs w
  ∧ (r ≠ Return "quit" ∧ STOP_ALL w' = STOP_ALL w
     ∨ r = Return "quit" ∧ STOP_ALL w' = true).
Proof.
  destruct (interactive_dec h) as [Hi|Hno].
  - rewrite (play_interactive _ _ _ _ _ Hi). cbv zeta.
    destruct (keys a) as [ticks|]; [|intros [= <- <-]; simpl; auto].
    destruct (poll_loop _ _ _) as [r0 w0] eqn:Hloop.
    apply poll_loop_facts in Hloop as [Hd Hcases]. simpl in Hd.
    destruct Hcases as [[[->| [->| ->]] Hs]|[-> Hs]];
      intros [= <- <-]; simpl in *; split; auto.
  - rewrite (play_blocking _ _ _ _ _ Hno). cbv zeta.
    destruct (play a); intros [= <- <-]; simpl; auto.
Qed.

End playback.

(** ** The playlist driver *)

Section driver.

Context (h : host) (ffplay_path ffmpeg_path : filepath) (folder : string).

Local Abbreviation cycle := (track_cycle h ffplay_path ffmpeg_path folder).
Local Abbreviation playlist := (for_files h ffplay_path ffmpeg_path folder).

(** One turn of the loop, in terms of the render and playback steps. *)
Lemma track_cycle_run filename w :
  let a := answers h filename in
  let w0 := log [Print (nl ++ "Playing: " ++ filename)] w in
  cycle filename w =
    if STOP_ALL w then (Return Break, w)
    else match mix_to_temp_wav a ffmpeg_path (os_path_join folder filename) w0 with
         | (Return tmp_wav, w1) =>
             let '(r, w2) := play_wav_with_ffplay h a ffplay_path tmp_wav w1 in
             let w3 := (remove_quietly (rmtree_ok a) (os_path_dirname tmp_wav) w2).2 in
             match r with
             | Return v =>
                 (Return (if String.eqb v "quit" then Break else Continue), w3)
             | Raise e => (Raise e, w3)
             end
         | (Raise e, w1) =>
             if is_Exception e then (Return Continue, log [skipping] w1)
             else (Raise e, w1)
         end.
Proof.
  intros a w0. unfold track_cycle, get_STOP_ALL.
  unfold bind at 1. destruct (STOP_ALL w); [done|].
  unfold bind at 1, print, emit. fold w0. fold a.
  unfold bind at 1, try_except, bind at 1.
  destruct (mix_to_temp_wav a ffmpeg_path _ w0) as [[tmp_wav|e] w1].
  - unfold ret at 1. unfold bind at 1, try_finally.
    destruct (play_wav_with_ffplay h a ffplay_path tmp_wav w1) as [r w2].
    rewrite remove_quietly_run. simpl.
    destruct r as [v|e]; [|done]. by destruct (String.eqb v "quit").
  - destruct (is_Exception e); done.
Qed.

Lemma remove_quietly_flag ok d w :
  STOP_ALL (remove_quietly ok d w).2 = STOP_ALL w.
Proof.
  rewrite remove_quietly_run. simpl.
  destruct (bool_decide _), ok; done.
Qed.

Lemma mix_flag a music w r w' :
  mix_to_temp_wav a ffmpeg_path music w = (r, w') → STOP_ALL w' = STOP_ALL w.
Proof.
  rewrite mix_to_temp_wav_run. cbv zeta.
  destruct (render a) as [[c| |]|]; [|by intros [= <- <-]..].
  destruct (c =? 0)%Z; [by intros [= <- <-]|].
  destruct (rmtree_ok a); by intros [= <- <-].
Qed.

(** A turn ends in [Break] exactly when it leaves the flag raised, and a
    turn that lets an exception out leaves the flag down. *)
Lemma track_cycle_flag filename w r w' :
  cycle filename w = (r, w') →
  STOP_ALL w' = match r with Return Break => true | _ => false end.
Proof.
  rewrite track_cycle_run. cbv zeta.
  destruct (STOP_ALL w) eqn:Hstop; [by intros [= <- <-]|].
  destruct (mix_to_temp_wav _ _ _ _) as [[tmp_wav|e] w1] eqn:Hmix.
  - apply mix_flag in Hmix. simpl in Hmix.
    destruct (play_wav_with_ffplay _ _ _ _ _) as [r2 w2] eqn:Hplay.
    apply play_facts in Hplay as [_ Hcases].
    destruct r2 as [v|e]; intros [= <- <-]; rewrite remove_quietly_flag.
    + destruct Hcases as [[Hne Hs]|[[= ->] Hs]]; [|done].
      destruct (String.eqb_spec v "quit") as [->|_]; [done|congruence].
    + destruct Hcases as [[_ Hs]|[[=] _]]. congruence.
  - apply mix_flag in Hmix. simpl in Hmix.
    destruct (is_Exception e); intros [= <- <-]; simpl; congruence.
Qed.

Lemma for_files_cons f files w :
  playlist (f :: files) w =
    match cycle f w with
    | (Return Continue, w1) => playlist files w1
    | (Return Break, w1) => (Return tt, w1)
    | (Raise e, w1) => (Raise e, w1)
    end.
Proof.
  simpl. unfold bind. by destruct (cycle f w) as [[[]|e] w1].
Qed.

Lemma then_run {A B} (m : M A) (k : M B) w :
  (m;; k) w = match m w with
              | (Return _, w1) => k w1
              | (Raise e, w1) => (Raise e, w1)
              end.
Proof. reflexivity. Qed.

(** With the flag raised, nothing of the remaining list is touched. *)
Lemma for_files_stopped files w :
  STOP_ALL w = true → playlist files w = (Return tt, w).
Proof.
  intros Hstop. destruct files as [|f files]; [done|].
  by rewrite for_files_cons, track_cycle_run, Hstop.
Qed.

Lemma for_files_app l1 l2 w :
  playlist (l1 ++ l2) w = (playlist l1;; playlist l2) w.
Proof.
  revert w; induction l1 as [|f l1 IH]; intros w; [done|].
  rewrite <- app_comm_cons, then_run, !for_files_cons.
  destruct (cycle f w) as [[[]|e] w1] eqn:Hcycle; [| |done].
  - by rewrite IH, then_run.
  - apply track_cycle_flag in Hcycle.
    by rewrite for_files_stopped.
Qed.

(** An exception leaves the loop only with the flag down. *)
Lemma for_files_raise files w e w' :
  playlist files w = (Raise e, w') → STOP_ALL w' = false.
Proof.
  revert w; induction files as [|f files IH]; intros w; [done|].
  rewrite for_files_cons.
  destruct (cycle f w) as [[[]|e1] w1] eqn:Hcycle.
  - apply IH.
  - done.
  - intros [= <- <-]. by apply track_cycle_flag in Hcycle.
Qed.

End driver.

(** C4.  Once the flag is raised at the end of the turn of track [k] (a
    q or Q key or an interrupt during its playback raises it, and then
    only), the tracks after [k] leave no trace at all: the loop over the
    whole list ends in the very world the loop over the list cut after [k]
    ends in.  [main] then prints its closing summary and returns, and the
    process exits with status 0.  A turn that starts with the flag raised
    does nothing and breaks the loop; a turn breaks the loop exactly when
    it leaves the flag raised, which playback does exactly when it
    answers ["quit"]. *)
Theorem quit_stops_the_playlist (h : host) (ffplay_path ffmpeg_path : filepath)
    (pre post : list string) (k : string) (w : world) r1 w1 :
  let folder := askdirectory h in
  let w0 := log (announce folder (pre ++ k :: post)) w in
  ready h ffplay_path ffmpeg_path →
  track_list (isfile h) folder (listdir h folder) = (pre ++ k :: post)%list →
  for_files h ffplay_path ffmpeg_path folder (pre ++ [k]) w0 = (r1, w1) →
  STOP_ALL w1 = true →
  r1 = Return tt
  ∧ for_files h ffplay_path ffmpeg_path folder (pre ++ k :: post) w0
    = (Return tt, w1)
  ∧ main h w = (Return tt, log [Print done_message] w1)
  ∧ script h w = (0%Z, log [Print done_message] w1)
  ∧ (∀ f v, STOP_ALL v = true →
       track_cycle h ffplay_path ffmpeg_path folder f v = (Return Break, v))
  ∧ (∀ f v c v',
       track_cycle h ffplay_path ffmpeg_path folder f v = (Return c, v') →
       c = Break ↔ STOP_ALL v' = true)
  ∧ (∀ a wav v r v', STOP_ALL v = false →
       play_wav_with_ffplay h a ffplay_path wav v = (r, v') →
       r = Return (outcome_name QuitRequested) ↔ STOP_ALL v' = true).
Proof.
  intros folder w0 Hready Hfiles Hrun Hstop.
  assert (r1 = Return tt) as ->.
  { destruct r1 as [[]|e]; [done|].
    apply for_files_raise in Hrun. congruence. }
  assert (for_files h ffplay_path ffmpeg_path folder (pre ++ k :: post) w0
          = (Return tt, w1)) as Hall.
  { rewrite (cons_middle k pre post), app_assoc, for_files_app, then_run, Hrun.
    by apply for_files_stopped. }
  assert (main h w = (Return tt, log [Print done_message] w1)) as Hmain.
  { rewrite (main_playlist h ffplay_path ffmpeg_path w Hready).
    2: { fold folder. rewrite Hfiles. by destruct pre. }
    fold folder. rewrite Hfiles. fold w0. by rewrite then_run, Hall. }
  split_and!; try done.
  - unfold script. by rewrite Hmain.
  - intros f v Hv. by rewrite track_cycle_run, Hv.
  - intros f v c v' Hcycle. apply track_cycle_flag in Hcycle.
    rewrite Hcycle. by destruct c.
  - intros a wav v r v' Hv Hplay.
    apply play_facts in Hplay as [_ [[Hne Hs]|[-> Hs]]]; simpl.
    + rewrite Hs, Hv. split; [done|congruence].
    + done.
Qed.

Lemma quit_stops_the_playlist_witness :
  let h := Sample.windows ["b.wav"; "a.mp3"] Sample.listener in
  let w0 := log (announce "/music" ["a.mp3"; "b.wav"]) (boot ∅) in
  ∃ w1,
    for_files h Sample.ffplay Sample.ffmpeg "/music" ["a.mp3"] w0 = (Return tt, w1)
    ∧ STOP_ALL w1 = true
    ∧ script h (boot ∅) = (0%Z, log [Print done_message] w1).
Proof.
  intros h w0. eexists. split; [by vm_compute|]. split; [reflexivity|].
  refine (proj1 (proj2 (proj2 (proj2
    (quit_stops_the_playlist h Sample.ffplay Sample.ffmpeg
       [] ["b.wav"] "a.mp3" (boot ∅) (Return tt) _ _ _ _ _))))).
  - repeat split; done.
  - by vm_compute.
  - by vm_compute.
  - reflexivity.
Defined.

(** C5, as the spec words it, does not hold: a render step can fail
    though ffmpeg was never invoked.  When no temporary directory can be
    created, [mix_to_temp_wav] raises [OSError] before it has built the
    command line; nothing is added to the trace, and [main] skips the
    track as for any other failure. *)
Lemma render_fails_before_ffmpeg :
  (let a := TrackEnv "mw_mix_a" NoTempDir [] (Exited 0) true in
   let h := Sample.windows ["a.mp3"] (λ _, a) in
   let w0 := log [Print (nl ++ "Playing: " ++ "a.mp3")] (boot ∅) in
   mix_to_temp_wav a Sample.ffmpeg (os_path_join "/music" "a.mp3") w0
   = (Raise OSError, w0)
   ∧ RenderFailure OSError
   ∧ track_cycle h Sample.ffplay Sample.ffmpeg "/music" "a.mp3" (boot ∅)
     = (Return Continue, log [skipping] w0)
   ∧ rendered (trace (log [skipping] w0)) = [])
  ∧ ¬ render_fails_exactly_on_ffmpeg.
Proof.
  split; [by vm_compute|].
  intros Hclaim.
  pose (a := TrackEnv "mw_mix_a" NoTempDir [] (Exited 0) true).
  destruct (proj1 (Hclaim a Sample.ffmpeg (os_path_join "/music" "a.mp3")
                     (boot ∅))) as [(c & [=] & _)|[=]].
  exists OSError, (boot ∅). by vm_compute.
Qed.

(** C5, amended.  The render step raises a failure (an exception of
    class [Exception]) exactly when no temporary directory can be
    created, or when ffmpeg exits with a status other than 0 or cannot
    be started.  In the first case nothing has happened: no directory,
    no ffmpeg.  When the render step fails, during the turn of track
    [k], the failure reaches [main], which prints its skipping message,
    starts no player for the track (the turn adds no player launch to
    the trace) and goes on with the track after [k]. *)
Theorem render_failure_skips_the_track (h : host)
    (ffplay_path ffmpeg_path : filepath) (folder k : string)
    (rest : list string) (w : world) :
  let a := answers h k in
  let music_file := os_path_join folder k in
  (∀ v, (∃ e v', mix_to_temp_wav a ffmpeg_path music_file v = (Raise e, v')
                 ∧ RenderFailure e)
        ↔ render a = NoTempDir
          ∨ (∃ c, render a = Exited c ∧ c ≠ 0%Z) ∨ render a = LaunchFailed)
  ∧ (render a = NoTempDir →
     ∀ v, mix_to_temp_wav a ffmpeg_path music_file v = (Raise OSError, v))
  ∧ (∀ e w1,
       STOP_ALL w = false →
       mix_to_temp_wav a ffmpeg_path music_file
         (log [Print (nl ++ "Playing: " ++ k)] w) = (Raise e, w1) →
       RenderFailure e →
       track_cycle h ffplay_path ffmpeg_path folder k w
         = (Return Continue, log [skipping] w1)
       ∧ for_files h ffplay_path ffmpeg_path folder (k :: rest) w
         = for_files h ffplay_path ffmpeg_path folder rest (log [skipping] w1)
       ∧ ∃ evs, trace (log [skipping] w1) = (trace w ++ evs ++ [skipping])%list
                ∧ Forall (λ ev, launches_player ev = false) evs).
Proof.
  intros a music_file. split_and!.
  - intros v. rewrite mix_to_temp_wav_run. cbv zeta. unfold RenderFailure.
    destruct (render a) as [[c| |]|].
    + destruct (Z.eqb_spec c 0) as [->|Hc].
      * split; [intros (e & v' & [=] & _)|].
        intros [[=]|[(c & [= <-] & Hc)|[=]]]; done.
      * split; [eauto 6|]. intros _. do 2 eexists. split; [done|done].
    + split; [eauto|]. intros _. do 2 eexists. split; [done|done].
    + split; [intros (e & v' & [= <- <-] & [=])|].
      intros [[=]|[(c & [=] & _)|[=]]].
    + split; [eauto|]. intros _. do 2 eexists. split; [done|done].
  - intros Hrender v. by rewrite mix_to_temp_wav_run, Hrender.
  - intros e w1 Hstop Hmix Hfail.
    assert (track_cycle h ffplay_path ffmpeg_path folder k w
            = (Return Continue, log [skipping] w1)) as Hcycle.
    { rewrite track_cycle_run, Hstop. cbv zeta. fold a. fold music_file.
      rewrite Hmix. unfold RenderFailure in Hfail. by rewrite Hfail. }
    split; [done|]. split; [by rewrite for_files_cons, Hcycle|].
    rewrite mix_to_temp_wav_run in Hmix. cbv zeta in Hmix.
    set (d := mkdtemp_pick _ _) in *.
    destruct (render a) as [[c| |]|].
    + destruct (c =? 0)%Z; [done|].
      exists ([Print (nl ++ "Playing: " ++ k)]
              ++ render_events ffmpeg_path music_file d
              ++ [PrintExc "Error while mixing with ffmpeg: " (CalledProcessError c);
                  Rmtree d])%list.
      destruct (rmtree_ok a); injection Hmix as <- <-;
        (split; [simpl; by rewrite <- !app_assoc|repeat constructor]).
    + exists ([Print (nl ++ "Playing: " ++ k)]
              ++ render_events ffmpeg_path music_file d)%list.
      injection Hmix as <- <-.
      split; [simpl; by rewrite <- !app_assoc|repeat constructor].
    + injection Hmix as <- <-. done.
    + exists [Print (nl ++ "Playing: " ++ k)].
      injection Hmix as <- <-.
      split; [simpl; by rewrite <- !app_assoc|repeat constructor].
Qed.

Lemma render_failure_skips_the_track_witness :
  let h := Sample.windows ["bad.mp3"; "b.wav"] Sample.listener in
  ∃ w1,
    mix_to_temp_wav (answers h "bad.mp3") Sample.ffmpeg
      (os_path_join "/music" "bad.mp3")
      (log [Print (nl ++ "Playing: " ++ "bad.mp3")] (boot ∅))
    = (Raise (CalledProcessError 3), w1)
    ∧ for_files h Sample.ffplay Sample.ffmpeg "/music" ["bad.mp3"; "b.wav"] (boot ∅)
      = for_files h Sample.ffplay Sample.ffmpeg "/music" ["b.wav"]
          (log [skipping] w1).
Proof.
  intros h. eexists. split; [by vm_compute|].
  refine (proj1 (proj2 (proj2 (proj2
    (render_failure_skips_the_track h Sample.ffplay Sample.ffmpeg
       "/music" "bad.mp3" ["b.wav"] (boot ∅)))
    (CalledProcessError 3) _ _ _ _))).
  - reflexivity.
  - by vm_compute.
  - reflexivity.
Defined.

(** C6.  Where keys are polled, and after any number of turns in which
    nothing or another key was met: on n or N the loop terminates ffplay
    and answers ["next"] with the flag as it was; on q or Q it terminates
    ffplay, raises the flag and answers ["quit"]; when ffplay exits by
    itself it answers ["done"], having terminated nothing and with the
    flag as it was; on a keyboard interrupt it terminates ffplay, raises
    the flag and answers ["quit"]. *)
Theorem playback_control (h : host) (a : track_env)
    (ffplay_path wav_path : filepath) (w : world)
    (pre rest : list tick) :
  let cmd := ffplay_cmd ffplay_path wav_path in
  let w1 := log (player_started ffplay_path wav_path ++ tick_events pre) w in
  interactive h →
  Forall inert pre →
  (∀ ch, ch ∈ ["n"; "N"]%char → keys a = (pre ++ Key ch :: rest)%list →
     play_wav_with_ffplay h a ffplay_path wav_path w
     = (Return (outcome_name SkipRequested), log [Getch ch; Terminate cmd] w1)
     ∧ STOP_ALL (log [Getch ch; Terminate cmd] w1) = STOP_ALL w)
  ∧ (∀ ch, ch ∈ ["q"; "Q"]%char → keys a = (pre ++ Key ch :: rest)%list →
       play_wav_with_ffplay h a ffplay_path wav_path w
       = (Return (outcome_name QuitRequested),
          World true (tmp_dirs w) (trace w1 ++ [Getch ch; Terminate cmd])))
  ∧ (keys a = pre →
       play_wav_with_ffplay h a ffplay_path wav_path w
       = (Return (outcome_name Completed), w1)
       ∧ STOP_ALL w1 = STOP_ALL w
       ∧ List.filter is_terminate (trace w1) = List.filter is_terminate (trace w))
  ∧ (keys a = (pre ++ CtrlC :: rest)%list →
       play_wav_with_ffplay h a ffplay_path wav_path w
       = (Return (outcome_name QuitRequested),
          World true (tmp_dirs w) (trace w1 ++ [Terminate cmd]))).
Proof.
  intros cmd w1 Hi Hpre.
  assert (∀ ticks,
    poll_loop cmd (pre ++ ticks) (log (player_started ffplay_path wav_path) w)
    = poll_loop cmd ticks w1) as Hloop.
  { intros ticks. rewrite poll_loop_inert by done. by rewrite log_log. }
  split_and!.
  - intros ch Hch Hkeys. split; [|done].
    rewrite (play_interactive _ _ _ _ _ Hi), Hkeys. cbv zeta. fold cmd.
    rewrite Hloop. simpl. rewrite bind_emit.
    unfold is_key. rewrite bool_decide_true by done.
    by rewrite bind_emit, log_log.
  - intros ch Hch Hkeys.
    rewrite (play_interactive _ _ _ _ _ Hi), Hkeys. cbv zeta. fold cmd.
    rewrite Hloop. simpl. rewrite bind_emit.
    rewrite (quit_key_not_skip ch Hch).
    unfold is_key. rewrite bool_decide_true by done.
    rewrite bind_emit. simpl. by rewrite <- !app_assoc.
  - intros Hkeys. split_and!; [|done|].
    + rewrite (play_interactive _ _ _ _ _ Hi), Hkeys. cbv zeta. fold cmd.
      rewrite <- (app_nil_r pre) at 1. by rewrite Hloop.
    + unfold w1, log. cbn [trace]. rewrite !List.filter_app.
      assert (List.filter is_terminate (tick_events pre) = []) as ->.
      { clear. induction pre as [|[|ch|] pre IH]; simpl; done. }
      simpl. by rewrite app_nil_r.
  - intros Hkeys.
    rewrite (play_interactive _ _ _ _ _ Hi), Hkeys. cbv zeta. fold cmd.
    by rewrite Hloop.
Qed.

Lemma playback_control_witness :
  let h := Sample.windows ["a.mp3"] Sample.listener in
  let wav := os_path_join "mw_mix_a" "out.wav" in
  play_wav_with_ffplay h (Sample.listener "a.mp3") Sample.ffplay wav (boot ∅)
  = (Return "quit",
     World true ∅
       (player_started Sample.ffplay wav
        ++ [Sleep; Getch "x"; Sleep; Getch "q";
            Terminate (ffplay_cmd Sample.ffplay wav)])).
Proof.
  intros h wav.
  refine (proj1 (proj2
    (playback_control h (Sample.listener "a.mp3") Sample.ffplay wav (boot ∅)
       [Idle; Key "x"] [Idle] _ _)) "q"%char _ _).
  - done.
  - repeat constructor. simpl. by apply (bool_decide_unpack _).
  - by apply (bool_decide_unpack _).
  - reflexivity.
Defined.

(** *** Keys the loop does not know *)

Section other_keys.








End other_keys.




(** ** Temporary directories *)

Section temp_dirs.

Lemma new_events_app w evs w' :
  trace w' = (trace w ++ evs)%list → new_events w w' = evs.
Proof. unfold new_events. intros ->. by rewrite drop_app_length. Qed.

Lemma allocated_app evs1 evs2 :
  allocated (evs1 ++ evs2) = (allocated evs1 ++ allocated evs2)%list.
Proof. unfold allocated. apply bind_app. Qed.

(** The loop and the playback only add to the trace, and allocate no
    directory. *)
Lemma poll_loop_trace cmd ticks w r w' :
  poll_loop cmd ticks w = (r, w') →
  ∃ evs, trace w' = (trace w ++ evs)%list ∧ allocated evs = [].
Proof.
  revert w; induction ticks as [|t ticks IH]; intros w.
  - intros [= <- <-]. exists []. by rewrite app_nil_r.
  - destruct t as [|ch|]; simpl.
    + rewrite bind_emit. intros (evs & -> & Hevs)%IH.
      exists (Sleep :: evs). split; [simpl; by rewrite <- app_assoc|done].
    + rewrite bind_emit.
      destruct (is_key ch ["n"; "N"]%char).
      { rewrite bind_emit. intros [= <- <-]. eexists. split; [|shelve].
        simpl. by rewrite <- app_assoc. Unshelve. done. }
      destruct (is_key ch ["q"; "Q"]%char).
      { rewrite bind_emit. intros [= <- <-]. eexists. split; [|shelve].
        simpl. by rewrite <- app_assoc. Unshelve. done. }
      rewrite bind_emit. intros (evs & -> & Hevs)%IH.
      exists (Getch ch :: Sleep :: evs).
      split; [simpl; by rewrite <- !app_assoc|done].
    + intros [= <- <-]. exists []. by rewrite app_nil_r.
Qed.

Lemma play_trace h a ffplay_path wav_path w r w' :
  play_wav_with_ffplay h a ffplay_path wav_path w = (r, w') →
  ∃ evs, trace w' = (trace w ++ evs)%list ∧ allocated evs = [].
Proof.
  destruct (interactive_dec h) as [Hi|Hno].
  - rewrite (play_interactive _ _ _ _ _ Hi). cbv zeta.
    destruct (keys a) as [ticks|]; [|intros [= <- <-]; by eexists].
    destruct (poll_loop _ _ _) as [r0 w0] eqn:Hloop.
    apply poll_loop_trace in Hloop as (evs & Ht & Hevs). simpl in Ht.
    destruct r0 as [[v|]|[]]; intros [= <- <-]; simpl; rewrite ?Ht;
      rewrite <- ?app_assoc; eexists; (split; [reflexivity|]);
      rewrite ?allocated_app, ?Hevs; done.
  - rewrite (play_blocking _ _ _ _ _ Hno). cbv zeta.
    destruct (play a); intros [= <- <-]; by eexists.
Qed.



End temp_dirs.



(** C2, as the code has it.  Take the turn of a track for which ffmpeg
    is started and runs to an exit status, and for which removing the
    directory succeeds.  Whatever the exit status, and however playback
    ends (to the end, skipped, quit, or with an exception under the
    blocking wait), every directory allocated during the turn is gone
    when the turn is over, and the directories that exist are those that
    existed before.  When the exit status is not 0, the render step has
    removed its directory by the time it raises the failure. *)
Theorem temp_dir_removed_after_cycle (h : host)
    (ffplay_path ffmpeg_path : filepath) (folder filename : string)
    (w : world) r w' (c : Z) :
  let a := answers h filename in
  STOP_ALL w = false →
  render a = Exited c →
  rmtree_ok a = true →
  track_cycle h ffplay_path ffmpeg_path folder filename w = (r, w') →
  (∀ d, d ∈ allocated (new_events w w') → d ∉ tmp_dirs w')
  ∧ allocated (new_events w w') = [mkdtemp_pick (tmp_name a) (tmp_dirs w)]
  ∧ tmp_dirs w' = tmp_dirs w
  ∧ (c ≠ 0%Z →
     ∀ music_file v, ∃ v',
       mix_to_temp_wav a ffmpeg_path music_file v
         = (Raise (CalledProcessError c), v')
       ∧ (mkdtemp_pick (tmp_name a) (tmp_dirs v) ∉ tmp_dirs v')
       ∧ last (trace v') = Some (Rmtree (mkdtemp_pick (tmp_name a) (tmp_dirs v)))).
Proof.
  intros a Hstop Hrender Hrm Hcycle.
  set (d := mkdtemp_pick (tmp_name a) (tmp_dirs w)).
  assert (d ∉ tmp_dirs w) as Hfresh by apply mkdtemp_pick_fresh.
  assert (allocated (new_events w w') = [d] ∧ tmp_dirs w' = tmp_dirs w)
    as [Halloc Hdirs].
  { rewrite track_cycle_run, Hstop in Hcycle. cbv zeta in Hcycle.
    fold a in Hcycle.
    rewrite mix_to_temp_wav_run, Hrender, Hrm in Hcycle. cbv zeta in Hcycle.
    change (mkdtemp_pick _ _) with d in Hcycle.
    destruct (c =? 0)%Z.
    - destruct (play_wav_with_ffplay _ _ _ _ _) as [r2 w2] eqn:Hplay.
      destruct (play_facts _ _ _ _ _ _ _ Hplay) as [Hd2 _].
      destruct (play_trace _ _ _ _ _ _ _ Hplay) as (evs & Ht2 & Hevs).
      simpl in Hd2, Ht2.
      rewrite remove_quietly_run in Hcycle.
      rewrite bool_decide_true in Hcycle by (rewrite Hd2; apply made_gives).
      assert (w' = removed d (log [Rmtree d] w2)) as ->.
      { by destruct r2; injection Hcycle as <- <-. }
      split.
      + erewrite new_events_app.
        2: { simpl. rewrite Ht2, <- !app_assoc. reflexivity. }
        rewrite !allocated_app, Hevs. done.
      + simpl. rewrite Hd2. by apply made_then_removed.
    - injection Hcycle as <- <-. split.
      + erewrite new_events_app; [|simpl; rewrite <- !app_assoc; reflexivity].
        done.
      + simpl. by apply made_then_removed. }
  split_and!; [|done|done|].
  - intros d' Hd'. rewrite Halloc in Hd'.
    apply list_elem_of_singleton in Hd' as ->. by rewrite Hdirs.
  - intros Hc music_file v. eexists.
    rewrite mix_to_temp_wav_run, Hrender, Hrm. cbv zeta.
    apply Z.eqb_neq in Hc. rewrite Hc.
    split; [reflexivity|]. split.
    + simpl. apply removed_takes.
    + simpl. rewrite last_app. done.
Qed.

Lemma temp_dir_removed_after_cycle_witness :
  let h := Sample.windows ["a.mp3"] Sample.listener in
  ∃ w',
    track_cycle h Sample.ffplay Sample.ffmpeg "/music" "a.mp3" (boot ∅)
    = (Return Break, w')
    ∧ tmp_dirs w' = tmp_dirs (boot ∅).
Proof.
  intros h. eexists. split; [by vm_compute|].
  refine (proj1 (proj2 (proj2
    (temp_dir_removed_after_cycle h Sample.ffplay Sample.ffmpeg
       "/music" "a.mp3" (boot ∅) _ _ 0%Z _ _ _ _)))).
  - reflexivity.
  - reflexivity.
  - reflexivity.
  - by vm_compute.
Defined.

(** C2 fails as it is stated.  When ffmpeg cannot be started, the render
    step raises [OSError], which is not the exception its handler
    removes the directory for: [main] skips the track and the directory
    stays.  When the removal itself fails, the error is swallowed and
    the directory stays as well. *)
Lemma temp_dir_left_behind :
  (let h := Sample.posix ["a.mp3"]
              (λ _, TrackEnv "mw_mix_a" LaunchFailed [] (Exited 0) true) in
   ∃ w', track_cycle h Sample.ffplay Sample.ffmpeg "/music" "a.mp3" (boot ∅)
         = (Return Continue, w')
         ∧ allocated (new_events (boot ∅) w') = ["mw_mix_a"]
         ∧ "mw_mix_a" ∈ tmp_dirs w')
  ∧ (let h := Sample.posix ["a.mp3"]
                (λ _, TrackEnv "mw_mix_a" (Exited 0) [] (Exited 0) false) in
     ∃ w', track_cycle h Sample.ffplay Sample.ffmpeg "/music" "a.mp3" (boot ∅)
           = (Return Continue, w')
           ∧ allocated (new_events (boot ∅) w') = ["mw_mix_a"]
           ∧ "mw_mix_a" ∈ tmp_dirs w')
  ∧ ¬ temp_dir_always_gone.
Proof.
  split_and!.
  - eexists. split; [by vm_compute|]. split; [by vm_compute|].
    by apply (bool_decide_unpack _).
  - eexists. split; [by vm_compute|]. split; [by vm_compute|].
    by apply (bool_decide_unpack _).
  - intros Hgone.
    pose (h := Sample.posix ["a.mp3"]
                 (λ _, TrackEnv "mw_mix_a" LaunchFailed [] (Exited 0) true)).
    destruct (track_cycle h Sample.ffplay Sample.ffmpeg "/music" "a.mp3" (boot ∅))
      as [r w'] eqn:Hcycle.
    apply (Hgone h Sample.ffplay Sample.ffmpeg "/music" "a.mp3" (boot ∅) r w'
             eq_refl Hcycle "mw_mix_a").
    + vm_compute in Hcycle. injection Hcycle as <- <-.
      by apply (bool_decide_unpack _).
    + vm_compute in Hcycle. injection Hcycle as <- <-.
      by apply (bool_decide_unpack _).
Qed.

(** * Further properties *)

(** ** Start of the program *)

Section startup.

Lemma find_ffplay_run h w :
  find_ffplay h w =
    match located h "ffplay" with
    | Some p => (Return p, w)
    | None => (Raise (SystemExit 1), log ffplay_missing w)
    end.
Proof.
  unfold find_ffplay, located.
  change ("ffplay" ++ ".exe") with "ffplay.exe".
  destruct (String.eqb (os_name h) "nt"); cbv zeta;
    (destruct (isfile h _); [done|]); (destruct (which h _); [done|]);
    unfold print; rewrite !bind_emit, !log_log; done.
Qed.

Lemma find_ffmpeg_run h w :
  find_ffmpeg h w =
    match located h "ffmpeg" with
    | Some p => (Return p, w)
    | None => (Raise (SystemExit 1), log ffmpeg_missing w)
    end.
Proof.
  unfold find_ffmpeg, located.
  change ("ffmpeg" ++ ".exe") with "ffmpeg.exe".
  destruct (String.eqb (os_name h) "nt"); cbv zeta;
    (destruct (isfile h _); [done|]); (destruct (which h _); [done|]);
    unfold print; rewrite !bind_emit, !log_log; done.
Qed.

(** Every way [main] can go, down to the loop over the tracks. *)
Lemma main_run h w :
  let folder := askdirectory h in
  let files := track_list (isfile h) folder (listdir h folder) in
  main h w =
    match located h "ffplay", located h "ffmpeg" with
    | None, _ => (Raise (SystemExit 1), log (banner ++ ffplay_missing) w)
    | Some _, None => (Raise (SystemExit 1), log (banner ++ ffmpeg_missing) w)
    | Some ffplay_path, Some ffmpeg_path =>
        if String.eqb folder "" then
          (Return tt,
           log (banner ++ [dialog; Print "No folder selected. Exiting."]) w)
        else if isdir h folder then
          if bool_decide (files = []) then
            (Return tt,
             log (banner ++
                  [dialog;
                   Print "No supported audio files found in the selected folder.";
                   Print "Supported extensions:";
                   Print ".mp3, .wav, .flac, .ogg, .m4a, .aac, .wma, .opus"]) w)
          else
            (for_files h ffplay_path ffmpeg_path folder files;;
             print done_message) (log (announce folder files) w)
        else
          (Return tt,
           log (banner ++ [dialog; Print "Selected path is not a folder."]) w)
    end.
Proof.
  intros folder files.
  unfold main, choose_folder, print, emit, bind, ret.
  rewrite find_ffplay_run.
  destruct (located h "ffplay") as [ffplay_path|]; cbv beta iota;
    [|by rewrite !log_log].
  rewrite find_ffmpeg_run.
  destruct (located h "ffmpeg") as [ffmpeg_path|]; cbv beta iota;
    [|by rewrite !log_log].
  fold folder. destruct (String.eqb folder ""); [by rewrite !log_log|].
  destruct (isdir h folder); cbn [negb]; cbv beta iota;
    [|by rewrite !log_log].
  fold files. destruct (bool_decide (files = [])); [by rewrite !log_log|].
  rewrite print_each_run, !log_log. reflexivity.
Qed.

End startup.

(** ** What a run renders, plays and removes *)

Section run_events.

Lemma rendered_app evs1 evs2 :
  rendered (evs1 ++ evs2) = (rendered evs1 ++ rendered evs2)%list.
Proof. apply bind_app. Qed.

Lemma written_app evs1 evs2 :
  written (evs1 ++ evs2) = (written evs1 ++ written evs2)%list.
Proof. apply bind_app. Qed.

Lemma played_app evs1 evs2 :
  played (evs1 ++ evs2) = (played evs1 ++ played evs2)%list.
Proof. apply bind_app. Qed.

Lemma removals_app evs1 evs2 :
  removals (evs1 ++ evs2) = (removals evs1 ++ removals evs2)%list.
Proof. apply bind_app. Qed.

(** The polling loop renders, plays, allocates and removes nothing. *)
Lemma control_events_quiet evs :
  Forall (λ ev, control_event ev = true) evs →
  rendered evs = [] ∧ written evs = [] ∧ played evs = []
  ∧ allocated evs = [] ∧ removals evs = [].
Proof.
  induction 1 as [|ev evs Hev _ (? & ? & ? & ? & ?)]; [done|].
  destruct ev; try done; by split_and!.
Qed.

(** The loop sends at most one termination, and exactly when it answers
    with a [return] of its own. *)
Lemma poll_loop_summary cmd ticks w r w' :
  poll_loop cmd ticks w = (r, w') →
  ∃ evs, trace w' = (trace w ++ evs)%list
    ∧ Forall (λ ev, control_event ev = true) evs
    ∧ ((r = Return None ∨ r = Raise KeyboardInterrupt)
       ∧ List.filter is_terminate evs = []
       ∨ (r = Return (Some "next") ∨ r = Return (Some "quit"))
         ∧ List.filter is_terminate evs = [Terminate cmd]).
Proof.
  revert w; induction ticks as [|t ticks IH]; intros w.
  - intros [= <- <-]. exists []. rewrite app_nil_r. split_and!; auto.
  - destruct t as [|ch|]; simpl.
    + rewrite bind_emit. intros (evs & -> & Hc & Hcases)%IH.
      exists (Sleep :: evs). simpl. rewrite <- app_assoc.
      split_and!; [done|by constructor|done].
    + rewrite bind_emit.
      destruct (is_key ch ["n"; "N"]%char).
      { rewrite bind_emit. intros [= <- <-].
        exists [Getch ch; Terminate cmd]. simpl. rewrite <- app_assoc.
        split_and!; [done|by repeat constructor|auto]. }
      destruct (is_key ch ["q"; "Q"]%char).
      { rewrite bind_emit. intros [= <- <-].
        exists [Getch ch; Terminate cmd]. simpl. rewrite <- app_assoc.
        split_and!; [done|by repeat constructor|auto]. }
      rewrite bind_emit. intros (evs & -> & Hc & Hcases)%IH.
      exists (Getch ch :: Sleep :: evs). simpl. rewrite <- !app_assoc.
      split_and!; [done|by repeat constructor|done].
    + intros [= <- <-]. exists []. rewrite app_nil_r. split_and!; auto.
Qed.

(** Everything one playback adds to the trace. *)
Lemma play_events h a ffplay_path wav_path w r w' :
  play_wav_with_ffplay h a ffplay_path wav_path w = (r, w') →
  ∃ evs, trace w' = (trace w ++ evs)%list
    ∧ rendered evs = [] ∧ written evs = [] ∧ allocated evs = []
    ∧ removals evs = []
    ∧ played evs = [wav_path]
    ∧ List.filter is_terminate evs
      = match r with
        | Return v => if String.eqb v "done" then []
                      else [Terminate (ffplay_cmd ffplay_path wav_path)]
        | Raise _ => []
        end
    ∧ (¬ interactive h → Forall (λ ev, polls_or_controls ev = false) evs).
Proof.
  destruct (interactive_dec h) as [Hi|Hno].
  - rewrite (play_interactive _ _ _ _ _ Hi). cbv zeta.
    destruct (keys a) as [ticks|].
    2: { intros [= <- <-]. eexists. split; [reflexivity|]. by split_and!. }
    destruct (poll_loop _ _ _) as [r0 w0] eqn:Hloop.
    apply poll_loop_summary in Hloop as (evs & Ht & Hc & Hcases).
    simpl in Ht.
    destruct (control_events_quiet evs Hc) as (Hr & Hw & Hp & Ha & Hrm).
    destruct Hcases as [[[->| ->] Hterm]|[[->| ->] Hterm]];
      intros [= <- <-]; simpl; rewrite Ht, <- ?app_assoc;
      eexists; (split; [reflexivity|]);
      rewrite ?rendered_app, ?written_app, ?allocated_app, ?removals_app,
        ?played_app, ?List.filter_app, ?Hr, ?Hw, ?Hp, ?Ha, ?Hrm, ?Hterm;
      by split_and!.
  - rewrite (play_blocking _ _ _ _ _ Hno). cbv zeta.
    destruct (play a); intros [= <- <-]; eexists;
      (split; [reflexivity|]); split_and!; try done;
      intros _; by repeat constructor.
Qed.

End run_events.

(** ** What comes before what *)

Section precedence.

Context {A : Type} (made used : event → list A).

(** A list in which nothing is used but what is at hand. *)
Lemma preceded_all have evs :
  (∀ x, x ∈ evs ≫= used → x ∈ have) → preceded made used have evs.
Proof.
  intros Hall pre ev post x -> Hx. apply elem_of_app. left. apply Hall.
  rewrite bind_app, bind_cons, !elem_of_app. auto.
Qed.

Lemma preceded_app have evs1 evs2 :
  preceded made used have evs1 →
  preceded made used (have ++ (evs1 ≫= made)) evs2 →
  preceded made used have (evs1 ++ evs2).
Proof.
  intros H1 H2 pre ev post x Heq Hx.
  apply app_eq_inv in Heq as [(k & -> & Hk)|(k & -> & ->)].
  - destruct k as [|ev' k]; simpl in Hk.
    + subst evs2.
      specialize (H2 [] ev post x eq_refl Hx). simpl in H2.
      by rewrite !app_nil_r in H2.
    + injection Hk as <- ->. by apply (H1 pre ev k).
  - rewrite bind_app, app_assoc. by apply (H2 k ev post).
Qed.

Lemma preceded_more have have' evs :
  (∀ x, x ∈ have → x ∈ have') →
  preceded made used have evs → preceded made used have' evs.
Proof.
  intros Hsub Hp pre ev post x Heq Hx.
  specialize (Hp pre ev post x Heq Hx).
  rewrite elem_of_app in *. destruct Hp; auto.
Qed.

Lemma preceded_then have evs1 evs2 :
  preceded made used have evs1 →
  preceded made used [] evs2 →
  preceded made used have (evs1 ++ evs2).
Proof.
  intros H1 H2. apply preceded_app; [done|].
  eapply preceded_more; [|done]. by intros x ?%elem_of_nil.
Qed.

(** Two stretches, the second of which only uses what the first made. *)
Lemma preceded_split evs1 evs2 :
  evs1 ≫= used = [] →
  (∀ x, x ∈ evs2 ≫= used → x ∈ evs1 ≫= made) →
  preceded made used [] (evs1 ++ evs2).
Proof.
  intros H1 H2. apply preceded_app.
  - apply preceded_all. rewrite H1. by intros x ?%elem_of_nil.
  - by apply preceded_all.
Qed.

End precedence.

(** ** One turn of the loop, event by event *)

Section turn.

Context (h : host) (ffplay_path ffmpeg_path : filepath) (folder : string).

Local Abbreviation cycle := (track_cycle h ffplay_path ffmpeg_path folder).
Local Abbreviation playlist := (for_files h ffplay_path ffmpeg_path folder).

Local Ltac summarize :=
  rewrite ?rendered_app, ?written_app, ?played_app, ?allocated_app,
    ?removals_app.

Local Ltac close :=
  first [ done | by left | by right | (left; eassumption)
        | (intros _; split; [by repeat constructor|done])
        | (apply preceded_all; by intros x ?%elem_of_nil)
        | (apply sublist_nil_l) ].

(** A turn that starts with the flag down and gets a directory hands
    its track to ffmpeg once, for a file in the directory it allocated;
    it starts the player at most once, after ffmpeg and on that file;
    it removes at most that directory, after allocating it; and it ends
    with the directories it found, or with these and its own.  A turn
    that gets no directory only prints, and the loop goes on. *)
Lemma track_cycle_events f w r w' :
  cycle f w = (r, w') →
  STOP_ALL w = false →
  let d := mkdtemp_pick (tmp_name (answers h f)) (tmp_dirs w) in
  ∃ evs, trace w' = (trace w ++ evs)%list
    ∧ (if gets_directory h f then
         rendered evs = [os_path_join folder f]
         ∧ written evs = [os_path_join d "out.wav"]
         ∧ allocated evs = [d]
         ∧ (tmp_dirs w' = tmp_dirs w ∨ tmp_dirs w' = {[d]} ∪ tmp_dirs w)
       else
         rendered evs = [] ∧ written evs = [] ∧ allocated evs = []
         ∧ tmp_dirs w' = tmp_dirs w ∧ r = Return Continue)
    ∧ played evs `sublist_of` written evs
    ∧ preceded writes plays [] evs
    ∧ preceded allocates removes [] evs
    ∧ (¬ interactive h →
       Forall (λ ev, polls_or_controls ev = false) evs ∧ STOP_ALL w' = false).
Proof.
  intros Hcycle Hstop d.
  assert (d ∉ tmp_dirs w) as Hfresh by apply mkdtemp_pick_fresh.
  pose proof (made_then_removed d (tmp_dirs w) Hfresh) as Hback.
  rewrite track_cycle_run, Hstop in Hcycle. cbv zeta in Hcycle.
  rewrite mix_to_temp_wav_run in Hcycle. cbv zeta in Hcycle.
  change (mkdtemp_pick _ _) with d in Hcycle.
  set (music := os_path_join folder f) in *.
  set (playing := Print (nl ++ "Playing: " ++ f)) in *.
  unfold gets_directory.
  destruct (render (answers h f)) as [[c| |]|].
  - destruct (c =? 0)%Z.
    + destruct (play_wav_with_ffplay _ _ _ _ _) as [r2 w2] eqn:Hplay.
      destruct (play_facts _ _ _ _ _ _ _ Hplay) as [Hd2 Hflag].
      destruct (play_events _ _ _ _ _ _ _ Hplay)
        as (evs & Ht2 & Hr & Hw & Ha & Hrm & Hp & _ & Hquiet).
      simpl in Hd2, Ht2, Hflag.
      rewrite remove_quietly_run in Hcycle.
      rewrite bool_decide_true in Hcycle by (rewrite Hd2; apply made_gives).
      exists (([playing] ++ render_events ffmpeg_path music d)
              ++ evs ++ [Rmtree d])%list.
      assert (trace w' = (trace w ++ ([playing]
                ++ render_events ffmpeg_path music d) ++ evs ++ [Rmtree d])%list
              ∧ STOP_ALL w' = STOP_ALL w2
              ∧ (tmp_dirs w' = tmp_dirs w ∨ tmp_dirs w' = {[d]} ∪ tmp_dirs w))
        as (Ht & Hs & Hd).
      { destruct (rmtree_ok (answers h f)); destruct r2;
          injection Hcycle as <- <-; simpl;
          rewrite Ht2, Hd2, <- ?app_assoc;
          (split_and!; [done|done|]);
          [left; by apply made_then_removed|left; by apply made_then_removed
          |by right|by right]. }
      split_and!; try done.
      * summarize. by rewrite Hr.
      * summarize. by rewrite Hw.
      * rewrite !allocated_app. by rewrite Ha.
      * summarize. rewrite Hw, Hp. done.
      * apply preceded_split; [done|].
        fold (played (evs ++ [Rmtree d])). rewrite played_app, Hp. done.
      * apply preceded_split; [done|].
        fold (removals (evs ++ [Rmtree d])). rewrite removals_app, Hrm. done.
      * intros Hno. split.
        { repeat (apply Forall_app; split); try by repeat constructor.
          by apply Hquiet. }
        rewrite Hs. destruct Hflag as [[_ ->]|[Hq _]]; [done|].
        rewrite (play_blocking _ _ _ _ _ Hno) in Hplay. cbv zeta in Hplay.
        subst r2. by destruct (play (answers h f)).
    + exists (([playing] ++ render_events ffmpeg_path music d)
              ++ [PrintExc "Error while mixing with ffmpeg: " (CalledProcessError c);
                  Rmtree d; skipping])%list.
      assert (trace w' = (trace w ++ ([playing]
                ++ render_events ffmpeg_path music d)
                ++ [PrintExc "Error while mixing with ffmpeg: "
                      (CalledProcessError c); Rmtree d; skipping])%list
              ∧ STOP_ALL w' = STOP_ALL w
              ∧ (tmp_dirs w' = tmp_dirs w ∨ tmp_dirs w' = {[d]} ∪ tmp_dirs w))
        as (Ht & Hs & Hd).
      { destruct (rmtree_ok (answers h f)); injection Hcycle as <- <-; simpl;
          rewrite <- ?app_assoc; (split_and!; [done|done|]);
          [by left|by right]. }
      split_and!; try done.
      * apply sublist_nil_l.
      * apply preceded_all. by intros x ?%elem_of_nil.
      * by apply preceded_split.
      * intros _. split; [by repeat constructor|congruence].
  - exists ([playing] ++ render_events ffmpeg_path music d ++ [skipping])%list.
    injection Hcycle as <- <-. simpl. rewrite <- ?app_assoc.
    split_and!; close.
  - exists ([playing] ++ render_events ffmpeg_path music d)%list.
    injection Hcycle as <- <-. simpl. rewrite <- ?app_assoc.
    split_and!; close.
  - exists [playing; skipping].
    injection Hcycle as <- <-. simpl. rewrite <- ?app_assoc.
    split_and!; close.
Qed.

Lemma filter_gets_directory f files :
  List.filter (gets_directory h) (f :: files)
  = if gets_directory h f then f :: List.filter (gets_directory h) files
    else List.filter (gets_directory h) files.
Proof. reflexivity. Qed.

(** The whole loop: the tracks that get a directory are handed to
    ffmpeg in the order of the list, one directory each; the player
    only gets files that were written before, and only directories
    allocated before are removed. *)
Lemma for_files_events files w r w' :
  playlist files w = (r, w') →
  let tracks := os_path_join folder <$> List.filter (gets_directory h) files in
  ∃ evs, trace w' = (trace w ++ evs)%list
    ∧ rendered evs `prefix_of` tracks
    ∧ (r = Return tt → STOP_ALL w' = false → rendered evs = tracks)
    ∧ played evs `sublist_of` written evs
    ∧ preceded writes plays [] evs
    ∧ preceded allocates removes [] evs
    ∧ (λ d, os_path_join d "out.wav") <$> allocated evs = written evs
    ∧ length (allocated evs) = length (rendered evs)
    ∧ tmp_dirs w ⊆ tmp_dirs w'
    ∧ tmp_dirs w' ⊆ tmp_dirs w ∪ list_to_set (allocated evs)
    ∧ Forall (λ d, d ∉ tmp_dirs w) (allocated evs)
    ∧ (¬ interactive h → STOP_ALL w = false →
       Forall (λ ev, polls_or_controls ev = false) evs ∧ STOP_ALL w' = false).
Proof.
  revert w; induction files as [|f files IH]; intros w Hrun tracks.
  { injection Hrun as <- <-. exists []. rewrite app_nil_r.
    split_and!;
      first [done | apply union_subseteq_l | by intros _ ->
            | (apply preceded_all; by intros x ?%elem_of_nil) ]. }
  destruct (STOP_ALL w) eqn:Hstop.
  { rewrite for_files_stopped in Hrun by done. injection Hrun as <- <-.
    exists []. rewrite app_nil_r.
    split_and!;
      first [done | apply prefix_nil | apply union_subseteq_l | congruence
            | (apply preceded_all; by intros x ?%elem_of_nil) ]. }
  rewrite for_files_cons in Hrun.
  destruct (cycle f w) as [r1 w1] eqn:Hcycle.
  pose proof (track_cycle_flag _ _ _ _ _ _ _ _ Hcycle) as Hflag.
  destruct (track_cycle_events _ _ _ _ Hcycle Hstop)
    as (evs1 & Ht1 & Hshape & Hpw1 & Hpp1 & Hpr1 & Hq1).
  set (d := mkdtemp_pick _ _) in *.
  assert (d ∉ tmp_dirs w) as Hfresh by apply mkdtemp_pick_fresh.
  unfold tracks. rewrite filter_gets_directory.
  assert (∃ own,
            allocated evs1 = own ∧ (own = [] ∨ own = [d])
            ∧ rendered evs1 = os_path_join folder <$>
                (if gets_directory h f then [f] else [])
            ∧ written evs1 = (λ d, os_path_join d "out.wav") <$> own
            ∧ length own = length (rendered evs1)
            ∧ tmp_dirs w ⊆ tmp_dirs w1
            ∧ tmp_dirs w1 ⊆ tmp_dirs w ∪ list_to_set own
            ∧ (gets_directory h f = false → r1 = Return Continue))
    as (own & Ha1 & Hown & Hr1 & Hw1 & Hl1 & Hsub1 & Hsup1 & Hgo).
  { destruct (gets_directory h f).
    - destruct Hshape as (Hr & Hw & Ha & Hd). exists [d].
      rewrite Hr, Hw. split_and!; try done; auto.
      + destruct Hd as [-> | ->]; [done|apply union_subseteq_r].
      + simpl. rewrite union_empty_r_L.
        destruct Hd as [-> | ->]; [apply union_subseteq_l|].
        by rewrite (union_comm_L (tmp_dirs w)).
    - destruct Hshape as (Hr & Hw & Ha & Hd & Hret). exists [].
      rewrite Hr, Hw, Hd. split_and!; try done; auto.
      apply union_subseteq_l. }
  assert (Forall (λ d, d ∉ tmp_dirs w) own) as Hfr1.
  { destruct Hown as [-> | ->]; by repeat constructor. }
  assert (r1 = Return Continue
          ∨ (r1 ≠ Return Continue ∧ (r, w') = (match r1 with
                                               | Raise e => Raise e
                                               | _ => Return tt
                                               end, w1))) as [-> | [Hne Hend]].
  { destruct r1 as [[]|e]; [by left|right..]; by rewrite Hrun. }
  - destruct (IH _ Hrun)
      as (evs2 & Ht2 & Hr2 & Hall2 & Hpw2 & Hpp2 & Hpr2 & Haw2 & Hlen2 & Hsub2
          & Hsup2 & Hfr2 & Hq2).
    exists (evs1 ++ evs2)%list. summarize.
    rewrite Ht2, Ht1, <- app_assoc, Hr1, Hw1, Ha1 in *.
    split_and!; try done.
    + destruct (gets_directory h f); simpl; [by apply prefix_cons|done].
    + intros Hr Hs.
      destruct (gets_directory h f); simpl; [f_equal|]; by apply Hall2.
    + by apply sublist_app.
    + by apply preceded_then.
    + by apply preceded_then.
    + by rewrite fmap_app, Haw2.
    + by rewrite !length_app, Hlen2, Hl1.
    + by etrans.
    + etrans; [done|]. rewrite list_to_set_app_L, (assoc_L (∪)).
      by apply union_mono_r.
    + apply Forall_app. split; [done|].
      eapply Forall_impl; [done|]. intros d' Hd' Hin. by apply Hd', Hsub1.
    + intros Hno _. destruct (Hq1 Hno) as [Hf1 Hs1].
      destruct (Hq2 Hno Hs1) as [Hf2 Hs2].
      split; [by apply Forall_app|done].
  - injection Hend as -> ->. exists evs1.
    destruct (gets_directory h f) eqn:Hgets; [|by destruct Hne; apply Hgo].
    rewrite Hr1, Hw1, Ha1 in *.
    split_and!; try done.
    + simpl. apply prefix_cons, prefix_nil.
    + intros Hr Hs. destruct r1 as [[]|e]; [done| |done].
      congruence.
    + intros Hno _. by apply Hq1.
Qed.

End turn.

(** ** The whole program, event by event *)

Section whole_run.

Local Ltac summarize :=
  rewrite ?rendered_app, ?written_app, ?played_app, ?allocated_app,
    ?removals_app.

Lemma talk_quiet evs :
  Forall (λ ev, talks ev = true) evs →
  rendered evs = [] ∧ written evs = [] ∧ played evs = []
  ∧ allocated evs = [] ∧ removals evs = []
  ∧ Forall (λ ev, polls_or_controls ev = false) evs.
Proof.
  induction 1 as [|ev evs Hev _ (? & ? & ? & ? & ? & ?)]; [done|].
  destruct ev; try done; (split_and!; try done; by constructor).
Qed.

Lemma announce_talks folder files :
  Forall (λ ev, talks ev = true) (announce folder files).
Proof.
  unfold announce. apply Forall_app. split; [by repeat constructor|].
  constructor; [done|]. constructor; [done|].
  apply Forall_app. split; [|by repeat constructor].
  by apply Forall_fmap, Forall_true.
Qed.

Lemma new_events_log evs w : new_events w (log evs w) = evs.
Proof. by apply new_events_app. Qed.

Lemma for_files_orderly h ffplay_path ffmpeg_path folder files w :
  let run := for_files h ffplay_path ffmpeg_path folder files w in
  let tracks := os_path_join folder <$> List.filter (gets_directory h) files in
  ∃ evs, orderly tracks w evs run.2
    ∧ (run.1 = Return tt → STOP_ALL run.2 = false → rendered evs = tracks)
    ∧ (¬ interactive h → STOP_ALL w = false →
       Forall (λ ev, polls_or_controls ev = false) evs
       ∧ STOP_ALL run.2 = false).
Proof.
  intros run tracks. destruct run as [r w'] eqn:Hrun. unfold run in Hrun.
  destruct (for_files_events _ _ _ _ _ _ _ _ Hrun)
    as (evs & ? & ? & ? & ? & ? & ? & ? & ? & ? & ? & ? & ?).
  exists evs. by split_and!.
Qed.

Lemma orderly_talk tracks evs w :
  Forall (λ ev, talks ev = true) evs → orderly tracks w evs (log evs w).
Proof.
  intros (Hr & Hw & Hp & Ha & Hrm & _)%talk_quiet.
  unfold orderly. rewrite Hr, Hw, Hp, Ha.
  split_and!;
    first [done | apply prefix_nil | apply union_subseteq_l
          | apply preceded_all ].
  - fold (played evs). rewrite Hp. by intros x ?%elem_of_nil.
  - fold (removals evs). rewrite Hrm. by intros x ?%elem_of_nil.
Qed.

Lemma orderly_wrap tracks front evs back w w' :
  Forall (λ ev, talks ev = true) front →
  Forall (λ ev, talks ev = true) back →
  orderly tracks (log front w) evs w' →
  orderly tracks w (front ++ evs ++ back) (log back w').
Proof.
  intros (Hr1 & Hw1 & Hp1 & Ha1 & Hrm1 & _)%talk_quiet
         (Hr2 & Hw2 & Hp2 & Ha2 & Hrm2 & _)%talk_quiet
         (Ht & ? & ? & Hpp & Hpr & ? & ? & ? & ? & ?).
  assert (∀ {A} (made used : event → list A),
            front ≫= used = [] → back ≫= used = [] →
            preceded made used [] evs →
            preceded made used [] (front ++ evs ++ back)) as Hwrap.
  { intros A made used Hf Hb Hevs.
    apply preceded_then.
    - apply preceded_all. rewrite Hf. by intros x ?%elem_of_nil.
    - apply preceded_then; [done|].
      apply preceded_all. rewrite Hb. by intros x ?%elem_of_nil. }
  unfold orderly. summarize.
  rewrite Hr1, Hw1, Hp1, Ha1, Hr2, Hw2, Hp2, Ha2, !app_nil_r.
  simpl in *. rewrite Ht, <- !app_assoc. split_and!; try done.
  - by apply Hwrap.
  - by apply Hwrap.
Qed.

(** Whatever [main] meets, its run is orderly for the tracks that get a
    directory. *)
Lemma main_orderly h w :
  let folder := askdirectory h in
  let files := track_list (isfile h) folder (listdir h folder) in
  let tracks := os_path_join folder <$> List.filter (gets_directory h) files in
  ∃ evs, orderly tracks w evs (main h w).2
    ∧ (¬ interactive h → STOP_ALL w = false →
       Forall (λ ev, polls_or_controls ev = false) evs
       ∧ STOP_ALL (main h w).2 = false)
    ∧ (set_up h → (main h w).1 = Return tt → STOP_ALL (main h w).2 = false →
       rendered evs = tracks).
Proof.
  intros folder files tracks. rewrite main_run. fold folder files.
  assert (∀ evs, Forall (λ ev, talks ev = true) evs →
                 (set_up h → files = []) →
    ∃ evs0, orderly tracks w evs0 (log evs w)
      ∧ (¬ interactive h → STOP_ALL w = false →
         Forall (λ ev, polls_or_controls ev = false) evs0
         ∧ STOP_ALL (log evs w) = false)
      ∧ (set_up h → (@Return unit tt, log evs w).1 = Return tt →
         STOP_ALL (log evs w) = false →
         rendered evs0 = tracks)) as Hquiet.
  { intros evs Hevs Hnone. exists evs. split; [by apply orderly_talk|].
    split.
    - intros _ Hs. split; [|done]. by apply talk_quiet.
    - intros Hset _ _. unfold tracks. rewrite (Hnone Hset).
      by apply talk_quiet in Hevs as (-> & _). }
  destruct (located h "ffplay") as [ffplay_path|] eqn:Hplay.
  2: { destruct (Hquiet (banner ++ ffplay_missing)%list) as (evs & ? & ? & _).
       - by repeat constructor.
       - unfold set_up. rewrite Hplay. by intros ([? [=]] & _).
       - exists evs. split_and!; [done|done|].
         unfold set_up. rewrite Hplay. by intros ([? [=]] & _). }
  destruct (located h "ffmpeg") as [ffmpeg_path|] eqn:Hmpeg.
  2: { destruct (Hquiet (banner ++ ffmpeg_missing)%list) as (evs & ? & ? & _).
       - by repeat constructor.
       - unfold set_up. rewrite Hmpeg. by intros (_ & [? [=]] & _).
       - exists evs. split_and!; [done|done|].
         unfold set_up. rewrite Hmpeg. by intros (_ & [? [=]] & _). }
  destruct (String.eqb_spec folder "") as [Hnone|Hsome].
  { apply Hquiet; [by repeat constructor|]. by intros (_ & _ & ? & _). }
  destruct (isdir h folder) eqn:Hdir.
  2: { apply Hquiet; [by repeat constructor|].
       unfold set_up. fold folder. rewrite Hdir. by intros (_ & _ & _ & [=]). }
  destruct (bool_decide (files = [])) eqn:Hfiles.
  { apply Hquiet; [by repeat constructor|].
    intros _. by apply bool_decide_eq_true in Hfiles. }
  rewrite then_run.
  destruct (for_files_orderly h ffplay_path ffmpeg_path folder files
              (log (announce folder files) w)) as (evs & Hord & Hall & Hblock).
  cbv zeta in Hord, Hall, Hblock. fold tracks in Hord, Hall.
  pose proof (talk_quiet _ (announce_talks folder files))
    as (Hr0 & _ & _ & _ & _ & Hq0).
  destruct (for_files _ _ _ _ _ _) as [[[]|e] w1];
    simpl in Hord, Hall, Hblock.
  - exists (announce folder files ++ evs ++ [Print done_message])%list.
    split_and!.
    + apply (orderly_wrap _ _ _ [Print done_message]);
        [apply announce_talks|by repeat constructor|done].
    + intros Hno Hs. destruct (Hblock Hno Hs) as [Hq Hs1].
      split; [|done]. apply Forall_app. split; [done|].
      apply Forall_app. split; [done|by repeat constructor].
    + intros _ _ Hs. summarize. rewrite Hr0, Hall by done.
      simpl. by rewrite app_nil_r.
  - exists (announce folder files ++ evs ++ [])%list. split_and!.
    + rewrite <- (log_nil w1).
      apply (orderly_wrap _ _ _ []); [apply announce_talks|done|done].
    + intros Hno Hs. destruct (Hblock Hno Hs) as [Hq Hs1].
      split; [|done]. apply Forall_app. split; [done|by rewrite app_nil_r].
    + done.
Qed.

Lemma filter_sorted (g : string → bool) l :
  StronglySorted String.le l → StronglySorted String.le (List.filter g l).
Proof.
  induction 1 as [|x l Hl IH Hx]; simpl; [constructor|].
  destruct (g x); [|done]. constructor; [done|].
  rewrite Forall_forall in *. intros y Hy. apply Hx.
  apply list_elem_of_In in Hy. apply filter_In in Hy as [Hy _].
  by apply list_elem_of_In.
Qed.

Lemma filter_sublist {A} (g : A → bool) l : List.filter g l `sublist_of` l.
Proof.
  induction l as [|x l IH]; simpl; [done|].
  destruct (g x); [by apply sublist_skip|by apply sublist_cons].
Qed.

End whole_run.

(** X1.  A missing program ends the run at once.  When ffplay is found
    neither next to the script nor on the search path, the process
    prints the banner and the three lines about ffplay and exits with
    status 1; when ffplay is found and ffmpeg is not, it does the same
    with the lines about ffmpeg.  In both cases the run has only
    printed: the folder dialog was not opened, no directory was
    allocated and no process started. *)
Theorem missing_program_is_fatal (h : host) (w : world) :
  (located h "ffplay" = None →
   script h w = (1%Z, log (banner ++ ffplay_missing) w))
  ∧ (∀ p, located h "ffplay" = Some p → located h "ffmpeg" = None →
     script h w = (1%Z, log (banner ++ ffmpeg_missing) w))
  ∧ (located h "ffplay" = None ∨ located h "ffmpeg" = None →
     let evs := new_events w (script h w).2 in
     Forall (λ ev, is_print ev = true) evs
     ∧ (dialog ∉ evs)
     ∧ tmp_dirs (script h w).2 = tmp_dirs w).
Proof.
  assert (located h "ffplay" = None →
          script h w = (1%Z, log (banner ++ ffplay_missing) w)) as Hplay.
  { intros Hplay. unfold script. by rewrite main_run, Hplay. }
  assert (∀ p, located h "ffplay" = Some p → located h "ffmpeg" = None →
          script h w = (1%Z, log (banner ++ ffmpeg_missing) w)) as Hmpeg.
  { intros p Hp Hm. unfold script. by rewrite main_run, Hp, Hm. }
  split_and!; [done|done|].
  intros Hmissing. cbv zeta.
  assert (script h w = (1%Z, log (banner ++ ffplay_missing) w)
          ∨ script h w = (1%Z, log (banner ++ ffmpeg_missing) w)) as [-> | ->].
  { destruct (located h "ffplay") as [p|] eqn:Hp; [|by left; apply Hplay].
    destruct Hmissing as [[=]|Hm]. right. by apply (Hmpeg p). }
  - simpl. rewrite new_events_log.
    assert (Forall (λ ev, is_print ev = true) (banner ++ ffplay_missing))
      as Hprints by by repeat constructor.
    split_and!; [done| |done].
    intros Hin. rewrite Forall_forall in Hprints.
    by specialize (Hprints _ Hin).
  - simpl. rewrite new_events_log.
    assert (Forall (λ ev, is_print ev = true) (banner ++ ffmpeg_missing))
      as Hprints by by repeat constructor.
    split_and!; [done| |done].
    intros Hin. rewrite Forall_forall in Hprints.
    by specialize (Hprints _ Hin).
Qed.

Lemma missing_program_is_fatal_witness :
  script Sample2.bare (boot ∅) = (1%Z, log (banner ++ ffplay_missing) (boot ∅))
  ∧ script Sample2.player_only (boot ∅)
    = (1%Z, log (banner ++ ffmpeg_missing) (boot ∅))
  ∧ dialog ∉ new_events (boot ∅) (script Sample2.player_only (boot ∅)).2.
Proof.
  split_and!.
  - by apply (missing_program_is_fatal Sample2.bare (boot ∅)).
  - by apply (proj1 (proj2 (missing_program_is_fatal Sample2.player_only (boot ∅)))
                (os_path_join "/usr/bin" "ffplay")).
  - apply (proj2 (proj2 (missing_program_is_fatal Sample2.player_only (boot ∅)))).
    by right.
Defined.

(** X2.  With both programs found, the folder dialog is opened; an empty
    answer makes the process print that no folder was selected, and an
    answer that is not a directory makes it print that; either way it
    exits with status 0 and has done nothing else. *)
Theorem no_folder_no_work (h : host) (w : world) (p m : filepath) :
  located h "ffplay" = Some p →
  located h "ffmpeg" = Some m →
  (askdirectory h = "" →
   script h w
   = (0%Z, log (banner ++ [dialog; Print "No folder selected. Exiting."]) w))
  ∧ (askdirectory h ≠ "" → isdir h (askdirectory h) = false →
     script h w
     = (0%Z, log (banner ++ [dialog; Print "Selected path is not a folder."]) w)).
Proof.
  intros Hplay Hmpeg. split.
  - intros Hnone. unfold script. by rewrite main_run, Hplay, Hmpeg, Hnone.
  - intros Hsome Hdir. unfold script. rewrite main_run, Hplay, Hmpeg, Hdir.
    by destruct (String.eqb_spec (askdirectory h) "").
Qed.

Lemma no_folder_no_work_witness :
  script Sample2.cancelled (boot ∅)
  = (0%Z, log (banner ++ [dialog; Print "No folder selected. Exiting."]) (boot ∅))
  ∧ script Sample2.misdirected (boot ∅)
    = (0%Z, log (banner ++ [dialog; Print "Selected path is not a folder."])
              (boot ∅)).
Proof.
  split.
  - by apply (proj1 (no_folder_no_work Sample2.cancelled (boot ∅)
                       Sample.ffplay Sample.ffmpeg eq_refl eq_refl)).
  - by apply (proj2 (no_folder_no_work Sample2.misdirected (boot ∅)
                       Sample.ffplay Sample.ffmpeg eq_refl eq_refl)).
Defined.

(** X3.  The track list does not depend on the order in which the
    directory is listed; it has no name twice when the listing has none
    twice; and listing the tracks again gives the same list. *)
Theorem track_list_ignores_listing_order (isfile : filepath → bool)
    (folder : string) (listing listing' : list string) :
  listing ≡ₚ listing' →
  track_list isfile folder listing = track_list isfile folder listing'
  ∧ (NoDup listing → NoDup (track_list isfile folder listing))
  ∧ track_list isfile folder (track_list isfile folder listing)
    = track_list isfile folder listing.
Proof.
  intros Hperm. unfold track_list. split_and!.
  - by apply sort_of_permutation, filter_permutation.
  - intros Hnd. rewrite sort_permutation.
    apply NoDup_ListNoDup, List.NoDup_filter. by apply NoDup_ListNoDup.
  - symmetry. apply sort_unique; [apply sort_sorted|].
    assert (∀ l, Forall (λ f, is_track isfile folder f = true) l →
                 List.filter (is_track isfile folder) l = l) as Hid.
    { induction 1 as [|f l Hf _ IH]; simpl; [done|]. by rewrite Hf, IH. }
    rewrite (Hid (Py.sort (List.filter (is_track isfile folder) listing)));
      [reflexivity|].
    apply Forall_forall. intros f Hf.
    rewrite sort_permutation in Hf.
    by apply list_elem_of_In, filter_In in Hf as [_ ?].
Qed.

Lemma track_list_ignores_listing_order_witness :
  track_list (λ _, true) "/music" ["b.wav"; "notes.txt"; "a.mp3"]
  = track_list (λ _, true) "/music" ["a.mp3"; "notes.txt"; "b.wav"].
Proof.
  apply (track_list_ignores_listing_order (λ _, true) "/music").
  apply (Permutation_rev ["b.wav"; "notes.txt"; "a.mp3"]).
Defined.

(** X4.  A playback answers only ["done"], ["next"] or ["quit"].  Where
    keys are polled, the only exception it lets out is that of ffplay
    not starting, and once ffplay has started it lets none out; under
    the blocking wait the only exceptions are those of starting or
    waiting for ffplay.  It invokes the player once, on the file it was
    given; it terminates the player once when it answers ["next"] or
    ["quit"] and never when it answers ["done"] or raises; it leaves
    the directories as they were; and the flag is up afterwards exactly
    when it was up before or the answer is ["quit"]. *)
Theorem playback_answers_as_documented (h : host) (a : track_env)
    (ffplay_path wav_path : filepath) (w : world) :
  let run := play_wav_with_ffplay h a ffplay_path wav_path w in
  let evs := new_events w run.2 in
  (∀ v, run.1 = Return v → v ∈ ["done"; "next"; "quit"])
  ∧ (interactive h → keys a ≠ NotStarted → ∃ v, run.1 = Return v)
  ∧ (∀ e, run.1 = Raise e →
       interactive h ∧ e = OSError ∧ keys a = NotStarted
       ∨ ¬ interactive h
         ∧ (e = OSError ∧ play a = LaunchFailed
            ∨ e = KeyboardInterrupt ∧ play a = Interrupted))
  ∧ played evs = [wav_path]
  ∧ List.filter is_terminate evs
    = match run.1 with
      | Return v => if String.eqb v "done" then []
                    else [Terminate (ffplay_cmd ffplay_path wav_path)]
      | Raise _ => []
      end
  ∧ tmp_dirs run.2 = tmp_dirs w
  ∧ (STOP_ALL run.2 = true ↔ STOP_ALL w = true ∨ run.1 = Return "quit").
Proof.
  intros run evs. unfold evs. destruct run as [r w'] eqn:Hrun.
  unfold run in Hrun. simpl.
  destruct (play_events _ _ _ _ _ _ _ Hrun)
    as (evs' & Ht & _ & _ & _ & _ & Hp & Hterm & _).
  destruct (play_facts _ _ _ _ _ _ _ Hrun) as [Hd Hflag].
  rewrite (new_events_app _ _ _ Ht).
  assert ((∀ v, r = Return v → v ∈ ["done"; "next"; "quit"])
          ∧ (interactive h → keys a ≠ NotStarted → ∃ v, r = Return v)
          ∧ (∀ e, r = Raise e →
               interactive h ∧ e = OSError ∧ keys a = NotStarted
               ∨ ¬ interactive h
                 ∧ (e = OSError ∧ play a = LaunchFailed
                    ∨ e = KeyboardInterrupt ∧ play a = Interrupted)))
    as (Hans & Hint & Hexc).
  { destruct (interactive_dec h) as [Hi|Hno].
    - rewrite (play_interactive _ _ _ _ _ Hi) in Hrun. cbv zeta in Hrun.
      destruct (keys a) as [ticks|].
      2: { injection Hrun as <- _. split_and!; [done|done|].
           intros e [= <-]. by left. }
      destruct (poll_loop _ _ _) as [r0 w0] eqn:Hloop.
      apply poll_loop_facts in Hloop as [_ [[[->|[->| ->]] _]|[-> _]]];
        injection Hrun as <- _; (split_and!; [|by eauto|done]);
        intros v [= <-]; rewrite !elem_of_cons; auto.
    - rewrite (play_blocking _ _ _ _ _ Hno) in Hrun. cbv zeta in Hrun.
      destruct (play a); injection Hrun as <- _;
        (split_and!; [|done|]).
      + intros v [= <-]. by left.
      + done.
      + done.
      + intros e [= <-]. auto.
      + done.
      + intros e [= <-]. auto. }
  split_and!; try done.
  destruct Hflag as [[Hne ->]|[-> ->]]; [|tauto].
  split; [tauto|]. intros [?|?]; [done|by destruct Hne].
Qed.

Lemma playback_answers_as_documented_witness :
  let wav := os_path_join "mw_mix_a" "out.wav" in
  let run := play_wav_with_ffplay (Sample.windows ["a.mp3"] Sample.listener)
               (Sample.listener "a.mp3") Sample.ffplay wav (boot ∅) in
  let stuck := play_wav_with_ffplay (Sample.windows ["a.mp3"] Sample2.locked)
                 (Sample2.locked "a.mp3") Sample.ffplay wav (boot ∅) in
  (∃ v, run.1 = Return v)
  ∧ (stuck.1 = Raise OSError →
     interactive (Sample.windows ["a.mp3"] Sample2.locked)
     ∧ keys (Sample2.locked "a.mp3") = NotStarted).
Proof.
  intros wav run stuck. split.
  - apply (playback_answers_as_documented
             (Sample.windows ["a.mp3"] Sample.listener)
             (Sample.listener "a.mp3") Sample.ffplay wav (boot ∅));
      done.
  - intros Hstuck.
    destruct (proj1 (proj2 (proj2
      (playback_answers_as_documented
         (Sample.windows ["a.mp3"] Sample2.locked)
         (Sample2.locked "a.mp3") Sample.ffplay wav (boot ∅))))
      OSError Hstuck) as [(Hi & _ & Hk)|[Hno _]]; [done|].
    by destruct Hno.
Defined.

(** X5.  Without key polling, a run that starts with the flag down
    reads no key, terminates no player and ends with the flag down; and
    playback answers ["done"] whatever status ffplay exits with. *)
Theorem without_key_polling_nothing_is_polled (h : host) (w : world) :
  ¬ interactive h →
  STOP_ALL w = false →
  Forall (λ ev, polls_or_controls ev = false) (new_events w (main h w).2)
  ∧ STOP_ALL (main h w).2 = false
  ∧ (∀ a ffplay_path wav_path v c,
       play a = Exited c →
       play_wav_with_ffplay h a ffplay_path wav_path v
       = (Return "done", log [Run (ffplay_cmd ffplay_path wav_path)] v)).
Proof.
  intros Hno Hstop.
  destruct (main_orderly h w) as (evs & (Ht & _) & Hblock & _).
  destruct (Hblock Hno Hstop) as [Hq Hs].
  rewrite (new_events_app _ _ _ Ht). split_and!; [done|done|].
  intros a ffplay_path wav_path v c Hplay.
  by rewrite (play_blocking _ _ _ _ _ Hno), Hplay.
Qed.

Lemma without_key_polling_nothing_is_polled_witness :
  STOP_ALL (main (Sample.posix ["a.mp3"; "b.wav"] Sample2.unattended)
              (boot ∅)).2 = false.
Proof.
  apply (without_key_polling_nothing_is_polled
           (Sample.posix ["a.mp3"; "b.wav"] Sample2.unattended) (boot ∅)).
  - by intros [? _].
  - reflexivity.
Defined.

(** X6.  [main] hands the tracks to ffmpeg in the order of the sorted
    list, beginning with the first and leaving out on the way only the
    tracks for which no temporary directory could be created; each is
    handed over at most once and into one newly allocated directory.
    What it hands over is therefore in ascending order of names.  When
    the run gets as far as the track list, returns normally and leaves
    the flag down, every track for which a directory could be created
    has been handed to ffmpeg. *)
Theorem tracks_are_rendered_in_list_order (h : host) (w : world) :
  let folder := askdirectory h in
  let files := track_list (isfile h) folder (listdir h folder) in
  let evs := new_events w (main h w).2 in
  rendered evs
    `prefix_of` (os_path_join folder <$> List.filter (gets_directory h) files)
  ∧ rendered evs `sublist_of` (os_path_join folder <$> files)
  ∧ StronglySorted String.le (basename <$> rendered evs)
  ∧ length (allocated evs) = length (rendered evs)
  ∧ (set_up h → (main h w).1 = Return tt → STOP_ALL (main h w).2 = false →
     rendered evs
     = os_path_join folder <$> List.filter (gets_directory h) files).
Proof.
  intros folder files evs. unfold evs.
  destruct (main_orderly h w)
    as (evs' & (Ht & Hpre & _ & _ & _ & _ & Hlen & _) & _ & Hall).
  rewrite (new_events_app _ _ _ Ht). fold folder files in Hpre, Hall.
  split_and!; try done.
  - destruct Hpre as [rest Hrest].
    trans (os_path_join folder <$> List.filter (gets_directory h) files).
    + rewrite Hrest. by apply sublist_inserts_r.
    + apply fmap_sublist, filter_sublist.
  - destruct Hpre as [rest Hrest].
    pose proof (filter_sorted (gets_directory h) files) as Hsorted.
    assert (basename <$> (os_path_join folder
              <$> List.filter (gets_directory h) files)
            = List.filter (gets_directory h) files) as Hnames.
    { rewrite <- list_fmap_compose. by rewrite list_fmap_id. }
    rewrite <- Hnames, Hrest, fmap_app in Hsorted.
    apply StronglySorted_app in Hsorted as (_ & ? & _); [done|].
    apply sort_sorted.
Qed.

Lemma tracks_are_rendered_in_list_order_witness :
  let h := Sample.windows ["b.wav"; "a.mp3"; "c.ogg"] Sample2.cramped in
  track_list (isfile h) "/music" (listdir h "/music")
  = ["a.mp3"; "b.wav"; "c.ogg"]
  ∧ rendered (new_events (boot ∅) (main h (boot ∅)).2)
    = [os_path_join "/music" "a.mp3"].
Proof.
  intros h. split; [by vm_compute|].
  refine (proj2 (proj2 (proj2 (proj2
    (tracks_are_rendered_in_list_order h (boot ∅))))) _ _ _).
  - unfold set_up. split_and!; by eauto.
  - by vm_compute.
  - by vm_compute.
Defined.

(** X7.  [main] removes a directory only after it has allocated it:
    whenever the run removes a directory, an earlier event of the same
    run allocated that directory, and the directory did not exist when
    the run began.  Every directory the run allocates did not exist
    when the run began, and the directories left at the end are those
    of the beginning and, at most, some of the allocated ones. *)
Theorem only_own_directories_are_removed (h : host) (w : world) :
  let w' := (main h w).2 in
  let evs := new_events w w' in
  (∀ pre d post, evs = (pre ++ Rmtree d :: post)%list →
     d ∈ allocated pre ∧ d ∉ tmp_dirs w)
  ∧ Forall (λ d, d ∉ tmp_dirs w) (allocated evs)
  ∧ tmp_dirs w ⊆ tmp_dirs w'
  ∧ tmp_dirs w' ⊆ tmp_dirs w ∪ list_to_set (allocated evs).
Proof.
  intros w' evs. unfold evs, w'.
  destruct (main_orderly h w)
    as (evs' & (Ht & _ & _ & _ & Hrm & _ & _ & Hsub & Hsup & Hfresh) & _).
  rewrite (new_events_app _ _ _ Ht). split_and!; try done.
  intros pre d post Hsplit.
  assert (d ∈ allocated pre) as Hd.
  { apply (Hrm pre (Rmtree d) post d Hsplit). by left. }
  split; [done|].
  rewrite Forall_forall in Hfresh. apply Hfresh.
  rewrite Hsplit, allocated_app, elem_of_app. by left.
Qed.

Lemma only_own_directories_are_removed_witness :
  let h := Sample.windows ["a.mp3"; "b.wav"] Sample2.skipper in
  let evs := new_events (boot ∅) (main h (boot ∅)).2 in
  ∃ pre post, evs = (pre ++ Rmtree "mw_mix_a" :: post)%list
              ∧ "mw_mix_a" ∈ allocated pre.
Proof.
  intros h evs.
  exists (firstn 17 evs), (skipn 18 evs).
  assert (evs = (firstn 17 evs ++ Rmtree "mw_mix_a" :: skipn 18 evs)%list)
    as Hsplit by by vm_compute.
  split; [exact Hsplit|].
  exact (proj1 (proj1 (only_own_directories_are_removed h (boot ∅))
                  _ _ _ Hsplit)).
Defined.

(** X8.  The player is only ever given a file that ffmpeg was told
    before to write: whenever an event of the run starts the player on
    a file, an earlier event of the same run invoked ffmpeg with that
    file as its output.  The files handed to the player are, in order,
    among the files written, and each written file is [out.wav] in the
    directory allocated for its render. *)
Theorem player_gets_rendered_files (h : host) (w : world) :
  let evs := new_events w (main h w).2 in
  (∀ pre ev post f, evs = (pre ++ ev :: post)%list →
     f ∈ plays ev → f ∈ written pre)
  ∧ played evs `sublist_of` written evs
  ∧ written evs = (λ d, os_path_join d "out.wav") <$> allocated evs
  ∧ length (written evs) = length (rendered evs).
Proof.
  intros evs. unfold evs.
  destruct (main_orderly h w)
    as (evs' & (Ht & _ & Hpw & Hpp & _ & Haw & Hlen & _) & _).
  rewrite (new_events_app _ _ _ Ht). split_and!; [|done|done|].
  - intros pre ev post f Hsplit Hf. by apply (Hpp pre ev post f Hsplit).
  - by rewrite <- Haw, length_fmap.
Qed.

Lemma player_gets_rendered_files_witness :
  let h := Sample.windows ["a.mp3"; "b.wav"] Sample2.skipper in
  let evs := new_events (boot ∅) (main h (boot ∅)).2 in
  let wav := os_path_join "mw_mix_a" "out.wav" in
  ∃ pre post, evs = (pre ++ Popen (ffplay_cmd Sample.ffplay wav) :: post)%list
              ∧ wav ∈ written pre.
Proof.
  intros h evs wav.
  exists (firstn 12 evs), (skipn 13 evs).
  assert (evs = (firstn 12 evs ++ Popen (ffplay_cmd Sample.ffplay wav)
                   :: skipn 13 evs)%list) as Hsplit by by vm_compute.
  split; [exact Hsplit|].
  apply (proj1 (player_gets_rendered_files h (boot ∅)) _ _ _ wav Hsplit).
  by left.
Defined.

(** ** Turns that go on, and turns that end the run *)

Section turns.

Context (h : host) (ffplay_path ffmpeg_path : filepath) (folder : string).

Local Abbreviation playlist := (for_files h ffplay_path ffmpeg_path folder).

(** The turn of a track that renders and whose playback answers [v]. *)
Lemma played_turn f w r2 w2 :
  let a := answers h f in
  let d := mkdtemp_pick (tmp_name a) (tmp_dirs w) in
  let w1 := log ([Print (nl ++ "Playing: " ++ f)]
                 ++ render_events ffmpeg_path (os_path_join folder f) d)
                (made d w) in
  STOP_ALL w = false →
  render a = Exited 0 →
  rmtree_ok a = true →
  play_wav_with_ffplay h a ffplay_path (os_path_join d "out.wav") w1 = (r2, w2) →
  track_cycle h ffplay_path ffmpeg_path folder f w
  = (match r2 with
     | Return v => Return (if String.eqb v "quit" then Break else Continue)
     | Raise e => Raise e
     end,
     World (STOP_ALL w2) (tmp_dirs w) (trace w2 ++ [Rmtree d])).
Proof.
  intros a d w1 Hstop Hrender Hrm Hplay.
  assert (d ∉ tmp_dirs w) as Hfresh by apply mkdtemp_pick_fresh.
  destruct (play_facts _ _ _ _ _ _ _ Hplay) as [Hd2 _]. simpl in Hd2.
  rewrite track_cycle_run, Hstop. cbv zeta. fold a.
  rewrite mix_to_temp_wav_run, Hrender. cbv zeta. simpl Z.eqb. cbv iota.
  change (mkdtemp_pick _ _) with d.
  assert (log (render_events ffmpeg_path (os_path_join folder f) d)
            (made d (log [Print (nl ++ "Playing: " ++ f)] w)) = w1) as ->.
  { unfold w1, log, made. simpl. by rewrite <- app_assoc. }
  rewrite Hplay, remove_quietly_run, Hrm.
  rewrite bool_decide_true by (simpl; rewrite Hd2; apply made_gives).
  unfold removed. simpl. rewrite Hd2, (made_then_removed _ _ Hfresh).
  by destruct r2.
Qed.

End turns.

(** X9.  Where keys are polled, a track that is skipped with n or N and
    a track that plays to its end both let the loop go on with the next
    track: the player of the skipped track is terminated, the directory
    of the track is removed, the flag stays down and the directories
    are those of before the turn. *)
Theorem skip_and_completion_advance (h : host)
    (ffplay_path ffmpeg_path : filepath) (folder f : string)
    (more : list string) (w : world) (pre rest : list tick) :
  let a := answers h f in
  let d := mkdtemp_pick (tmp_name a) (tmp_dirs w) in
  let wav := os_path_join d "out.wav" in
  let start := ([Print (nl ++ "Playing: " ++ f)]
                ++ render_events ffmpeg_path (os_path_join folder f) d
                ++ player_started ffplay_path wav ++ tick_events pre)%list in
  interactive h →
  STOP_ALL w = false →
  render a = Exited 0 →
  rmtree_ok a = true →
  Forall inert pre →
  (∀ ch, ch ∈ ["n"; "N"]%char → keys a = (pre ++ Key ch :: rest)%list →
     for_files h ffplay_path ffmpeg_path folder (f :: more) w
     = for_files h ffplay_path ffmpeg_path folder more
         (log (start ++ [Getch ch; Terminate (ffplay_cmd ffplay_path wav);
                         Rmtree d]) w))
  ∧ (keys a = pre →
     for_files h ffplay_path ffmpeg_path folder (f :: more) w
     = for_files h ffplay_path ffmpeg_path folder more
         (log (start ++ [Rmtree d]) w)).
Proof.
  intros a d wav start Hi Hstop Hrender Hrm Hpre.
  set (w1 := log ([Print (nl ++ "Playing: " ++ f)]
                  ++ render_events ffmpeg_path (os_path_join folder f) d)
                 (made d w)).
  set (cmd := ffplay_cmd ffplay_path wav).
  assert (∀ ticks,
    poll_loop cmd (pre ++ ticks) (log (player_started ffplay_path wav) w1)
    = poll_loop cmd ticks
        (log (player_started ffplay_path wav ++ tick_events pre) w1)) as Hloop.
  { intros ticks. rewrite poll_loop_inert by done. by rewrite log_log. }
  split.
  - intros ch Hch Hkeys.
    assert (play_wav_with_ffplay h a ffplay_path wav w1
            = (Return "next",
               log (player_started ffplay_path wav ++ tick_events pre
                    ++ [Getch ch; Terminate cmd]) w1)) as Hplay.
    { rewrite (play_interactive _ _ _ _ _ Hi), Hkeys. cbv zeta. fold cmd.
      rewrite Hloop. simpl. rewrite bind_emit.
      unfold is_key. rewrite bool_decide_true by done.
      by rewrite bind_emit, !log_log. }
    rewrite for_files_cons,
      (played_turn h ffplay_path ffmpeg_path folder f w _ _ Hstop Hrender Hrm Hplay).
    simpl. f_equal. unfold log. simpl. f_equal. unfold start.
    repeat (rewrite <- !app_assoc; simpl). done.
  - intros Hkeys.
    assert (play_wav_with_ffplay h a ffplay_path wav w1
            = (Return "done",
               log (player_started ffplay_path wav ++ tick_events pre) w1))
      as Hplay.
    { rewrite (play_interactive _ _ _ _ _ Hi), Hkeys. cbv zeta. fold cmd.
      rewrite <- (app_nil_r pre) at 1. by rewrite Hloop. }
    rewrite for_files_cons,
      (played_turn h ffplay_path ffmpeg_path folder f w _ _ Hstop Hrender Hrm Hplay).
    simpl. f_equal. unfold log. simpl. f_equal. unfold start.
    repeat (rewrite <- !app_assoc; simpl). done.
Qed.

Lemma skip_and_completion_advance_witness :
  let h := Sample.windows ["a.mp3"; "b.wav"] Sample2.skipper in
  let wav := os_path_join "mw_mix_a" "out.wav" in
  for_files h Sample.ffplay Sample.ffmpeg "/music" ["a.mp3"; "b.wav"] (boot ∅)
  = for_files h Sample.ffplay Sample.ffmpeg "/music" ["b.wav"]
      (log ([Print (nl ++ "Playing: " ++ "a.mp3")]
            ++ render_events Sample.ffmpeg (os_path_join "/music" "a.mp3")
                 "mw_mix_a"
            ++ player_started Sample.ffplay wav
            ++ [Sleep; Getch "N"; Terminate (ffplay_cmd Sample.ffplay wav);
                Rmtree "mw_mix_a"])
         (boot ∅)).
Proof.
  intros h wav.
  refine (proj1
    (skip_and_completion_advance h Sample.ffplay Sample.ffmpeg "/music"
       "a.mp3" ["b.wav"] (boot ∅) [Idle] [Idle] _ _ _ _ _) "N"%char _ _).
  - done.
  - reflexivity.
  - reflexivity.
  - reflexivity.
  - by repeat constructor.
  - by apply (bool_decide_unpack _).
  - reflexivity.
Defined.

(** X10.  Under the blocking wait, when ffplay cannot be started or the
    wait is interrupted, the directory of the track is removed all the
    same before the exception leaves the loop, and no later track is
    touched. *)
Theorem playback_failure_passes_through_cleanup (h : host)
    (ffplay_path ffmpeg_path : filepath) (folder f : string)
    (more : list string) (w : world) (e : exn) :
  let a := answers h f in
  let d := mkdtemp_pick (tmp_name a) (tmp_dirs w) in
  let wav := os_path_join d "out.wav" in
  ¬ interactive h →
  STOP_ALL w = false →
  render a = Exited 0 →
  rmtree_ok a = true →
  play a = LaunchFailed ∧ e = OSError
  ∨ play a = Interrupted ∧ e = KeyboardInterrupt →
  for_files h ffplay_path ffmpeg_path folder (f :: more) w
  = (Raise e,
     log ([Print (nl ++ "Playing: " ++ f)]
          ++ render_events ffmpeg_path (os_path_join folder f) d
          ++ [Run (ffplay_cmd ffplay_path wav); Rmtree d]) w).
Proof.
  intros a d wav Hno Hstop Hrender Hrm Hplay.
  set (w1 := log ([Print (nl ++ "Playing: " ++ f)]
                  ++ render_events ffmpeg_path (os_path_join folder f) d)
                 (made d w)).
  assert (play_wav_with_ffplay h a ffplay_path wav w1
          = (Raise e, log [Run (ffplay_cmd ffplay_path wav)] w1)) as Hrun.
  { rewrite (play_blocking _ _ _ _ _ Hno). cbv zeta.
    by destruct Hplay as [[-> ->]|[-> ->]]. }
  rewrite for_files_cons,
    (played_turn h ffplay_path ffmpeg_path folder f w _ _ Hstop Hrender Hrm Hrun).
  f_equal. unfold log. simpl. f_equal. by rewrite <- !app_assoc.
Qed.

Lemma playback_failure_passes_through_cleanup_witness :
  let h := Sample.posix ["c.ogg"; "b.wav"] Sample2.unattended in
  ∃ w', for_files h Sample.ffplay Sample.ffmpeg "/music" ["c.ogg"; "b.wav"]
          (boot ∅) = (Raise OSError, w')
        ∧ tmp_dirs w' = ∅.
Proof.
  intros h. eexists. split.
  - refine (playback_failure_passes_through_cleanup h Sample.ffplay
              Sample.ffmpeg "/music" "c.ogg" ["b.wav"] (boot ∅) OSError
              _ _ _ _ _).
    + by intros [? _].
    + reflexivity.
    + reflexivity.
    + reflexivity.
    + by left.
  - reflexivity.
Defined.

(** X11.  How the process exits when a track cannot be carried through.
    Take a run that gets as far as a track list beginning with [f].  If
    the render of [f] is interrupted from the keyboard, the process
    prints its notice of the interruption and exits with status 0; the
    directory of the track stays behind.  If [f] renders and ffplay
    cannot be started, under key polling or under the blocking wait,
    the directory of the track is removed and the process exits with
    status 1.  If the blocking wait for ffplay is interrupted, the
    directory is removed, the notice is printed and the process exits
    with status 0.  In all four cases no later track is touched and the
    closing summary is not printed. *)
Theorem exit_status (h : host) (ffplay_path ffmpeg_path : filepath)
    (f : string) (more : list string) (w : world) :
  let folder := askdirectory h in
  let a := answers h f in
  let d := mkdtemp_pick (tmp_name a) (tmp_dirs w) in
  let wav := os_path_join d "out.wav" in
  let begun := (announce folder (f :: more)
                ++ [Print (nl ++ "Playing: " ++ f)]
                ++ render_events ffmpeg_path (os_path_join folder f) d)%list in
  let notice := Print (nl ++ "Interrupted by user.") in
  ready h ffplay_path ffmpeg_path →
  track_list (isfile h) folder (listdir h folder) = f :: more →
  STOP_ALL w = false →
  (render a = Interrupted →
   script h w = (0%Z, log (begun ++ [notice]) (made d w)))
  ∧ (render a = Exited 0 → rmtree_ok a = true →
     (interactive h → keys a = NotStarted →
      script h w
      = (1%Z, log (begun ++ [Popen (ffplay_cmd ffplay_path wav); Rmtree d]) w))
     ∧ (¬ interactive h → play a = LaunchFailed →
        script h w
        = (1%Z, log (begun ++ [Run (ffplay_cmd ffplay_path wav); Rmtree d]) w))
     ∧ (¬ interactive h → play a = Interrupted →
        script h w
        = (0%Z, log (begun ++ [Run (ffplay_cmd ffplay_path wav); Rmtree d;
                               notice]) w))).
Proof.
  intros folder a d wav begun notice Hready Hfiles Hstop.
  set (w0 := log (announce folder (f :: more)) w).
  assert (main h w
          = (for_files h ffplay_path ffmpeg_path folder (f :: more);;
             print done_message) w0) as Hmain.
  { rewrite (main_playlist h ffplay_path ffmpeg_path w Hready);
      fold folder; by rewrite Hfiles. }
  assert (∀ e evs,
    play_wav_with_ffplay h a ffplay_path wav
      (log ([Print (nl ++ "Playing: " ++ f)]
            ++ render_events ffmpeg_path (os_path_join folder f) d)
         (made d w0))
    = (Raise e, log evs
         (log ([Print (nl ++ "Playing: " ++ f)]
               ++ render_events ffmpeg_path (os_path_join folder f) d)
            (made d w0))) →
    render a = Exited 0 → rmtree_ok a = true →
    main h w = (Raise e, log (begun ++ evs ++ [Rmtree d]) w)) as Hfails.
  { intros e evs Hplay Hrender Hrm.
    rewrite Hmain, then_run, for_files_cons,
      (played_turn h ffplay_path ffmpeg_path folder f w0 _ _ Hstop Hrender Hrm
         Hplay).
    f_equal. unfold log, begun. simpl. f_equal.
    repeat (rewrite <- !app_assoc; simpl). done. }
  split.
  - intros Hrender.
    assert (main h w
            = (Raise KeyboardInterrupt, log begun (made d w))) as Hrun.
    { rewrite Hmain, then_run, for_files_cons, track_cycle_run. cbv zeta.
      change (STOP_ALL w0) with (STOP_ALL w). rewrite Hstop.
      rewrite mix_to_temp_wav_run. fold a. rewrite Hrender. cbv zeta.
      simpl. f_equal. unfold log, made, begun. simpl. f_equal.
      repeat (rewrite <- !app_assoc; simpl). done. }
    unfold script. rewrite Hrun. f_equal. unfold log, begun. simpl. f_equal.
    repeat (rewrite <- !app_assoc; simpl). done.
  - intros Hrender Hrm. split_and!.
    + intros Hi Hkeys. unfold script.
      rewrite (Hfails OSError [Popen (ffplay_cmd ffplay_path wav)]);
        [done| |done|done].
      by rewrite (play_interactive _ _ _ _ _ Hi), Hkeys.
    + intros Hno Hplay. unfold script.
      rewrite (Hfails OSError [Run (ffplay_cmd ffplay_path wav)]);
        [done| |done|done].
      by rewrite (play_blocking _ _ _ _ _ Hno), Hplay.
    + intros Hno Hplay. unfold script.
      rewrite (Hfails KeyboardInterrupt [Run (ffplay_cmd ffplay_path wav)]);
        [|by rewrite (play_blocking _ _ _ _ _ Hno), Hplay|done|done].
      f_equal. unfold log. simpl. f_equal.
      repeat (rewrite <- !app_assoc; simpl). done.
Qed.

Lemma exit_status_witness :
  (script (Sample.windows ["a.mp3"; "b.wav"] Sample2.impatient) (boot ∅)).1 = 0%Z
  ∧ "mw_mix_a" ∈ tmp_dirs
      (script (Sample.windows ["a.mp3"; "b.wav"] Sample2.impatient) (boot ∅)).2
  ∧ (script (Sample.windows ["a.mp3"; "b.wav"] Sample2.locked) (boot ∅)).1 = 1%Z
  ∧ tmp_dirs
      (script (Sample.windows ["a.mp3"; "b.wav"] Sample2.locked) (boot ∅)).2 = ∅
  ∧ (script (Sample.posix ["c.ogg"] Sample2.unattended) (boot ∅)).1 = 1%Z.
Proof.
  pose proof (proj1 (exit_status
    (Sample.windows ["a.mp3"; "b.wav"] Sample2.impatient)
    Sample.ffplay Sample.ffmpeg "a.mp3" ["b.wav"] (boot ∅)
    ltac:(repeat split; done) ltac:(by vm_compute) eq_refl) eq_refl)
    as Himpatient.
  pose proof (proj1 (proj2 (exit_status
    (Sample.windows ["a.mp3"; "b.wav"] Sample2.locked)
    Sample.ffplay Sample.ffmpeg "a.mp3" ["b.wav"] (boot ∅)
    ltac:(repeat split; done) ltac:(by vm_compute) eq_refl) eq_refl eq_refl)
    ltac:(done) eq_refl) as Hlocked.
  pose proof (proj1 (proj2 (proj2 (exit_status
    (Sample.posix ["c.ogg"] Sample2.unattended)
    (os_path_join "/opt/mw" "ffplay") (os_path_join "/opt/mw" "ffmpeg")
    "c.ogg" [] (boot ∅)
    ltac:(repeat split; done) ltac:(by vm_compute) eq_refl) eq_refl eq_refl))
    ltac:(by intros [? _]) eq_refl) as Hunattended.
  rewrite Himpatient, Hlocked, Hunattended.
  split_and!; reflexivity.
Defined.

(** X12.  Failing renders never stop the run.  When ffmpeg exits with a
    status other than 0, or cannot be started, for every track of a
    list, the loop still goes through the whole list: it attempts every
    track in order, starts no player, returns normally and leaves the
    flag down. *)
Theorem failed_renders_do_not_stop_the_run (h : host)
    (ffplay_path ffmpeg_path : filepath) (folder : string)
    (files : list string) (w : world) :
  STOP_ALL w = false →
  (∀ f, f ∈ files →
        (∃ c, render (answers h f) = Exited c ∧ c ≠ 0%Z)
        ∨ render (answers h f) = LaunchFailed) →
  ∃ w', for_files h ffplay_path ffmpeg_path folder files w = (Return tt, w')
    ∧ STOP_ALL w' = false
    ∧ rendered (new_events w w') = os_path_join folder <$> files
    ∧ played (new_events w w') = [].
Proof.
  intros Hstop Hfail.
  assert (∃ w' evs,
    for_files h ffplay_path ffmpeg_path folder files w = (Return tt, w')
    ∧ STOP_ALL w' = false
    ∧ trace w' = (trace w ++ evs)%list
    ∧ rendered evs = os_path_join folder <$> files
    ∧ played evs = []) as (w' & evs & Hrun & Hs & Ht & Hr & Hp).
  2: { exists w'. by rewrite (new_events_app _ _ _ Ht). }
  revert w Hstop. induction files as [|f files IH]; intros w Hstop.
  { exists w, []. by rewrite app_nil_r. }
  assert (∃ w1 evs1,
    track_cycle h ffplay_path ffmpeg_path folder f w = (Return Continue, w1)
    ∧ STOP_ALL w1 = false
    ∧ trace w1 = (trace w ++ evs1)%list
    ∧ rendered evs1 = [os_path_join folder f]
    ∧ played evs1 = []) as (w1 & evs1 & Hcycle & Hs1 & Ht1 & Hr1 & Hp1).
  { rewrite track_cycle_run, Hstop. cbv zeta.
    rewrite mix_to_temp_wav_run. cbv zeta.
    destruct (Hfail f) as [(c & -> & Hc)| ->]; [by left|..].
    - apply Z.eqb_neq in Hc. rewrite Hc.
      destruct (rmtree_ok (answers h f)); simpl;
        do 2 eexists; (split; [reflexivity|]); simpl;
        rewrite <- ?app_assoc; (split_and!; [done|reflexivity|done|done]).
    - simpl. do 2 eexists. split; [reflexivity|]. simpl.
      rewrite <- ?app_assoc. split_and!; [done|reflexivity|done|done]. }
  destruct (IH (λ f' Hf', Hfail f' (list_elem_of_further _ _ _ Hf')) w1 Hs1)
    as (w' & evs & Hrun & Hs & Ht & Hr & Hp).
  exists w', (evs1 ++ evs)%list.
  rewrite for_files_cons, Hcycle, rendered_app, played_app, Hr1, Hp1, Hr, Hp,
    Ht, Ht1, <- app_assoc.
  by split_and!.
Qed.

Lemma failed_renders_do_not_stop_the_run_witness :
  let h := Sample.windows ["bad.mp3"; "worse.mp3"; "worst.ogg"] Sample2.broken in
  let tracks := ["bad.mp3"; "worse.mp3"; "worst.ogg"] in
  ∃ w', for_files h Sample.ffplay Sample.ffmpeg "/music" tracks (boot ∅)
        = (Return tt, w')
        ∧ STOP_ALL w' = false
        ∧ rendered (new_events (boot ∅) w')
          = [os_path_join "/music" "bad.mp3"; os_path_join "/music" "worse.mp3";
             os_path_join "/music" "worst.ogg"]
        ∧ played (new_events (boot ∅) w') = [].
Proof.
  intros h tracks.
  apply (failed_renders_do_not_stop_the_run h Sample.ffplay Sample.ffmpeg
           "/music" tracks (boot ∅)).
  - reflexivity.
  - intros f Hf.
    repeat (apply elem_of_cons in Hf as [->|Hf];
            [first [by right | (left; by exists 3%Z)]|]).
    by apply elem_of_nil in Hf.
Defined.
